(** * Order Execution Engine: a shallow embedding of the order pipeline

    The development follows the TypeScript sources of the engine:
    - [dex-router.ts]  the two mocked quote providers and the hash generator;
    - [worker.ts]      the queue worker, in its two revisions
                       ([orderWorker] with the inline handler, and
                       [processOrder]);
    - [database.ts]    the order store ([db.orders.create], [db.orders.update]);
    - [websocket.ts]   the status broadcast hub ([activeConnections],
                       [broadcastUpdate]);
    - [routes.ts]      the submission endpoint and its validation.

    JavaScript numbers are IEEE 754 binary64 values; they are modelled by the
    standard library's [spec_float] at precision 53 and exponent bound 1024.
    Promises are awaited one after the other, so asynchronous code becomes a
    state-and-exception monad over an explicit world. *)

From Stdlib Require Import ZArith NArith Ascii Bool Lia.
From Stdlib Require Import Floats.SpecFloat.
From Stdlib Require Import DecimalString.
From stdpp Require Import base option gmap strings list fin_maps sorting.

Local Open Scope Z_scope.

(* ===================================================================== *)
(** ** JavaScript numbers                                                  *)
(* ===================================================================== *)

Module JsNumber.

Definition prec : Z := 53.
Definition emax : Z := 1024.

(** A JavaScript [number]. *)
Definition number : Type := spec_float.


(** The number nearest to an integer (exact below 2^53). *)
Definition of_Z (z : Z) : number := binary_normalize prec emax z 0 false.

Definition add : number -> number -> number := SFadd prec emax.
Definition mul : number -> number -> number := SFmul prec emax.
Definition div : number -> number -> number := SFdiv prec emax.

(** The decimal literal [m / 10^k], e.g. [204.10] is [decimal 20410 2].
    Both operands are exact, so the correctly rounded quotient is the
    number the literal denotes. *)
Definition decimal (m : Z) (k : nat) : number :=
  div (of_Z m) (of_Z (10 ^ Z.of_nat k)).

(** [x < y], [x > y], [x <= y] and [x === y] on numbers: every comparison
    with NaN is false. *)
Definition lt (x y : number) : bool := SFltb x y.
Definition gt (x y : number) : bool := SFltb y x.
Definition le (x y : number) : bool := SFleb x y.
Definition eq (x y : number) : bool := SFeqb x y.

Definition isNaN (x : number) : bool :=
  match x with S754_nan => true | _ => false end.


(** [Math.pow(2, k)] for an integer [k]: the power of two when it is
    representable, [Infinity] above the range and zero below. *)
Definition pow2 (k : Z) : number := SFldexp prec emax (of_Z 1) k.

(** [Math.floor] on a finite number, as an integer. *)
Definition floor (x : number) : option Z :=
  match x with
  | S754_zero _ => Some 0
  | S754_finite s m e =>
      let v := if s then Zneg m else Zpos m in
      Some (if 0 <=? e then v * 2 ^ e else v / 2 ^ (- e))
  | _ => None
  end.

(** Decimal digits of a natural number. *)
Definition digits (n : Z) : string :=
  NilZero.string_of_uint (N.to_uint (Z.to_N n)).

(** *** [Number::toString] for finite numbers of magnitude at least 10^21

    Such a number is an integer [X = m * 2^e].  The result uses the
    shortest digit string [s] of [k] digits with [s * 10^(n-k)] rounding
    back to the number, in exponential notation. *)

(** The open interval of reals that round to the number (closed at both
    ends when the mantissa is even), for [e >= 2]. *)
Definition round_interval (m : positive) (e : Z) : Z * Z * bool :=
  let X := Zpos m * 2 ^ e in
  let below := if (Zpos m =? 2 ^ (prec - 1)) then 2 ^ (e - 2) else 2 ^ (e - 1) in
  (X - below, X + 2 ^ (e - 1), Z.even (Zpos m)).

Definition rounds_back (iv : Z * Z * bool) (v : Z) : bool :=
  let '(lo, hi, closed) := iv in
  if closed then (lo <=? v) && (v <=? hi) else (lo <? v) && (v <? hi).

(** Candidates [(s, n)] with exactly [k] digits. *)
Definition candidates (X : Z) (D k : Z) : list (Z * Z) :=
  flat_map (fun n =>
    let scale := 10 ^ (n - k) in
    let s := X / scale in
    filter (fun c => (10 ^ (k - 1) <=? fst c) && (fst c <? 10 ^ k))
           [(s, n); (s + 1, n)])
    [D; D + 1].

Definition closest (X : Z) (k : Z) (cs : list (Z * Z)) : option (Z * Z) :=
  fold_left (fun best c =>
    let dist := fun c : Z * Z => Z.abs (fst c * 10 ^ (snd c - k) - X) in
    match best with
    | None => Some c
    | Some b => if dist c <? dist b then Some c else Some b
    end) cs None.

Fixpoint shortest (iv : Z * Z * bool) (X D : Z) (k : Z) (fuel : nat)
  : option (Z * Z * Z) :=
  match fuel with
  | O => None
  | S fuel' =>
      let ok := filter (fun c => rounds_back iv (fst c * 10 ^ (snd c - k)))
                       (candidates X D k) in
      match closest X k ok with
      | Some (s, n) => Some (s, n, k)
      | None => shortest iv X D (k + 1) fuel'
      end
  end.

Definition exponential (s n k : Z) : string :=
  let ds := digits s in
  let e := "e+" +:+ digits (n - 1) in
  match ds with
  | String d rest => if k =? 1 then ds +:+ e else String d ("." +:+ rest) +:+ e
  | EmptyString => e
  end.

Definition toString_large (m : positive) (e : Z) : string :=
  let X := Zpos m * 2 ^ e in
  let D := Z.of_nat (String.length (digits X)) in
  match shortest (round_interval m e) X D 1 17 with
  | Some (s, n, k) => exponential s n k
  | None => digits X
  end.

(** *** [Number.prototype.toFixed(1)]

    NaN and the infinities print by name; a magnitude of 10^21 or more
    falls back to [Number::toString]; otherwise the number is rounded
    (half up) to an integer count [n] of tenths that is printed with a
    point before its last digit. *)
Definition toFixed1 (x : number) : string :=
  match x with
  | S754_nan => "NaN"
  | S754_infinity false => "Infinity"
  | S754_infinity true => "-Infinity"
  | S754_zero _ => "0.0"
  | S754_finite s m e =>
      let sign := if s then "-" else "" in
      let big :=
        if 0 <=? e then 10 ^ 21 <=? Zpos m * 2 ^ e
        else 10 ^ 21 * 2 ^ (- e) <=? Zpos m in
      if big then sign +:+ toString_large m e
      else
        let n :=
          if 0 <=? e then 10 * Zpos m * 2 ^ e
          else (20 * Zpos m + 2 ^ (- e)) / 2 ^ (- e + 1) in
        sign +:+ digits (n / 10) +:+ "." +:+ digits (n mod 10)
  end.

End JsNumber.

Import JsNumber.

(** Text helpers of the JavaScript string API used by the sources. *)

(** [s.substring(n)]. *)
Fixpoint substring_from (n : nat) (s : string) : string :=
  match n, s with
  | O, _ => s
  | S n', String _ rest => substring_from n' rest
  | S _, EmptyString => EmptyString
  end.

(** [s.charAt(i)]: the empty string outside the range. *)
Definition charAt (s : string) (i : Z) : string :=
  if i <? 0 then ""
  else match String.get (Z.to_nat i) s with
       | Some c => String c EmptyString
       | None => ""
       end.

(** [`${n}`] for a non-negative integer below 10^21. *)
Definition show_nat (n : nat) : string := digits (Z.of_nat n).

(** [s.trim() === ''] on a string held as its UTF-8 bytes: every code point
    of [s] is a WhiteSpace or a LineTerminator of ECMAScript, that is TAB,
    LF, VT, FF, CR, SP, U+00A0 (C2 A0), U+1680 (E1 9A 80), U+2000..U+200A
    (E2 80 80..8A), U+2028, U+2029 (E2 80 A8, A9), U+202F (E2 80 AF),
    U+205F (E2 81 9F), U+3000 (E3 80 80) or U+FEFF (EF BB BF). *)
Definition whiteSpace1 (b : nat) : bool :=
  ((9 <=? b) && (b <=? 13) || (b =? 32))%nat.

Definition whiteSpace3 (b1 b2 b3 : nat) : bool :=
  ((b1 =? 225) && (b2 =? 154) && (b3 =? 128)
   || (b1 =? 226) && (b2 =? 128)
      && ((128 <=? b3) && (b3 <=? 138) || (b3 =? 168) || (b3 =? 169)
          || (b3 =? 175))
   || (b1 =? 226) && (b2 =? 129) && (b3 =? 159)
   || (b1 =? 227) && (b2 =? 128) && (b3 =? 128)
   || (b1 =? 239) && (b2 =? 187) && (b3 =? 191))%nat.

Fixpoint trimsToEmpty (s : string) : bool :=
  match s with
  | EmptyString => true
  | String c1 rest1 =>
      if whiteSpace1 (nat_of_ascii c1) then trimsToEmpty rest1
      else
        match rest1 with
        | EmptyString => false
        | String c2 rest2 =>
            if ((nat_of_ascii c1 =? 194) && (nat_of_ascii c2 =? 160))%nat
            then trimsToEmpty rest2
            else
              match rest2 with
              | EmptyString => false
              | String c3 rest3 =>
                  if whiteSpace3 (nat_of_ascii c1) (nat_of_ascii c2)
                                 (nat_of_ascii c3)
                  then trimsToEmpty rest3
                  else false
              end
        end
  end.

(* ===================================================================== *)
(** ** Data model                                                          *)
(* ===================================================================== *)

(** Milliseconds since the epoch: what [Date.now()] returns and what
    [new Date()] and the database's [NOW()] stand for. *)
Definition Time : Type := Z.

(** [Quote] of dex-router.ts. *)
Record Quote := mkQuote {
  q_dex : string;
  q_price : number;
  q_fee : number;
  q_timestamp : Time
}.

(** [Order] of types.ts, the payload of a job. *)
Record Order := mkOrder {
  o_id : string;
  o_tokenIn : string;
  o_tokenOut : string;
  o_amount : number;
  o_slippage : number;
  o_status : string;
  o_createdAt : Time;
  o_updatedAt : Time
}.

(** A row of the [orders] table of database.ts. *)
Record OrderRow := mkRow {
  row_id : string;
  row_token_in : string;
  row_token_out : string;
  row_amount : number;
  row_slippage : number;
  row_status : string;
  row_selected_dex : option string;
  row_tx_hash : option string;
  row_executed_price : option number;
  row_error : option string;
  row_created_at : Time;
  row_updated_at : Time
}.

(** The [updates] object handed to [db.orders.update]: every field may be
    left out. *)
Record Updates := mkUpdates {
  u_status : option string;
  u_selectedDex : option string;
  u_txHash : option string;
  u_executedPrice : option number;
  u_error : option string
}.

(** The [data] object handed to [broadcastUpdate]. *)
Record Event := mkEvent {
  ev_status : string;
  ev_message : string;
  ev_attempt : option nat;
  ev_attempts : option nat;
  ev_selectedDex : option string;
  ev_txHash : option string;
  ev_executedPrice : option number;
  ev_error : option string;
  ev_nextRetryIn : option string;
  ev_timestamp : option Time
}.

(** An event with only [status] and [message]. *)
Definition event (status message : string) : Event :=
  mkEvent status message None None None None None None None None.

(** A BullMQ job as the worker reads it: [job.data], [job.attemptsMade]
    and [job.opts.attempts]. *)
Record Job := mkJob {
  job_name : string;
  job_data : Order;
  job_attemptsMade : nat;
  job_opts_attempts : option nat
}.

(** The object a successful worker run returns. *)
Record JobResult := mkJobResult {
  r_orderId : string;
  r_status : option string;
  r_selectedDex : string;
  r_executedPrice : number;
  r_txHash : string;
  r_attempt : option nat
}.

(* ===================================================================== *)
(** ** The order store (database.ts)                                       *)
(* ===================================================================== *)

Module Db.

(** [COALESCE(param, column)]. *)
Definition COALESCE {A} (param : option A) (column : A) : A :=
  match param with Some v => v | None => column end.

Definition COALESCE_opt {A} (param column : option A) : option A :=
  match param with Some v => Some v | None => column end.

(** The [SET] clause of [db.orders.update] on one row at time [now]. *)
Definition set_row (u : Updates) (now : Time) (r : OrderRow) : OrderRow :=
  mkRow (row_id r) (row_token_in r) (row_token_out r) (row_amount r)
        (row_slippage r)
        (COALESCE (u_status u) (row_status r))
        (COALESCE_opt (u_selectedDex u) (row_selected_dex r))
        (COALESCE_opt (u_txHash u) (row_tx_hash r))
        (COALESCE_opt (u_executedPrice u) (row_executed_price r))
        (COALESCE_opt (u_error u) (row_error r))
        (row_created_at r)
        now.

(** [UPDATE orders SET ... WHERE id = $6]: the row of [orderId], when there
    is one, is rewritten; no other row is touched. *)
Definition update (orderId : string) (u : Updates) (now : Time)
           (t : gmap string OrderRow) : gmap string OrderRow :=
  match t !! orderId with
  | Some r => <[orderId := set_row u now r]> t
  | None => t
  end.

(** The row [INSERT INTO orders ... VALUES (..., NOW(), NOW())] creates. *)
Definition new_row (o : Order) (now : Time) : OrderRow :=
  mkRow (o_id o) (o_tokenIn o) (o_tokenOut o) (o_amount o) (o_slippage o)
        (o_status o) None None None None now now.

(** [SELECT * FROM orders WHERE id = $1], then [rows[0]]: [undefined] when
    no row has that identifier. *)
Definition getById (orderId : string) (t : gmap string OrderRow)
  : option OrderRow :=
  t !! orderId.

(** [ORDER BY created_at DESC]: a row may come before the rows created no
    later than it. *)
Definition newerFirst (a b : OrderRow) : Prop :=
  row_created_at b <= row_created_at a.

#[global] Instance newerFirst_dec a b : Decision (newerFirst a b) :=
  decide (row_created_at b <= row_created_at a).

(** [SELECT * FROM orders ORDER BY created_at DESC].  SQL leaves the order
    of rows created at the same instant open; here they come in the order
    the merge sort gives them. *)
Definition getAll (t : gmap string OrderRow) : list OrderRow :=
  merge_sort newerFirst (snd <$> map_to_list t).

End Db.

(* ===================================================================== *)
(** ** The status broadcast hub (websocket.ts)                             *)
(* ===================================================================== *)

Module Hub.

(** What [JSON.stringify({orderId, timestamp, ...data})] carries. *)
Record Message := mkMessage {
  msg_orderId : string;
  msg_timestamp : Time;
  msg_data : Event
}.

(** A socket object: its [readyState], the order identifier captured by
    the ['close'] listener [websocketRoutes] installs (none on sockets
    that did not come through that route), and the messages sent on it. *)
Record Socket := mkSocket {
  readyState : nat;
  closeListener : option string;
  inbox : list Message
}.

Definition OPEN : nat := 1.
Definition CLOSED : nat := 3.

(** The module state: the socket objects alive (by reference), the
    [activeConnections] map and the optional [wss] server's client set. *)
Record State := mkState {
  sockets : gmap nat Socket;
  nextSocket : nat;
  activeConnections : gmap string nat;
  wss : option (list nat)
}.

Definition empty : State := mkState ∅ 0 ∅ None.

Definition isOpen (st : State) (sid : nat) : bool :=
  match sockets st !! sid with
  | Some s => Nat.eqb (readyState s) OPEN
  | None => false
  end.

(** [socket.send(message)]. *)
Definition send (sid : nat) (m : Message) (st : State) : State :=
  mkState (alter (fun s => mkSocket (readyState s) (closeListener s)
                                    (inbox s ++ [m])) sid (sockets st))
          (nextSocket st) (activeConnections st) (wss st).

(** [{orderId, timestamp: new Date().toISOString(), ...data}]: a
    [timestamp] inside [data] overrides the hub's. *)
Definition envelope (now : Time) (orderId : string) (data : Event) : Message :=
  mkMessage orderId (default now (ev_timestamp data)) data.

(** [broadcastUpdate(orderId, data)]. *)
Definition broadcastUpdate (now : Time) (orderId : string) (data : Event)
           (st : State) : State :=
  let fallback :=
    match wss st with
    | Some clients =>
        foldl (fun acc client =>
                 if isOpen acc client
                 then send client (envelope now orderId data) acc
                 else acc) st clients
    | None => st
    end in
  match activeConnections st !! orderId with
  | Some socket =>
      if isOpen st socket
      then send socket (envelope now orderId data) st
      else fallback
  | None => fallback
  end.

(** A client connects: the framework creates an open socket object. *)
Definition newSocket (st : State) : nat * State :=
  (nextSocket st,
   mkState (<[nextSocket st := mkSocket OPEN None []]> (sockets st))
           (S (nextSocket st)) (activeConnections st) (wss st)).

(** The handler of [GET /ws/:orderId] in [websocketRoutes]. *)
Definition websocketRoute (now : Time) (orderId : string) (socket : nat)
           (st : State) : State :=
  let st1 := mkState (sockets st) (nextSocket st)
                     (<[orderId := socket]> (activeConnections st)) (wss st) in
  let st2 := send socket
                  (mkMessage orderId now
                     (event "connected" "Waiting for order processing"))
                  st1 in
  mkState (alter (fun s => mkSocket (readyState s) (Some orderId) (inbox s))
                 socket (sockets st2))
          (nextSocket st2) (activeConnections st2) (wss st2).

(** A client opens [/ws/:orderId]. *)
Definition connect (now : Time) (orderId : string) (st : State) : nat * State :=
  let '(socket, st1) := newSocket st in
  (socket, websocketRoute now orderId socket st1).

(** The closing handshake of a socket begins: its [readyState] leaves
    [OPEN] before the ['close'] event is emitted. *)
Definition CLOSING : nat := 2.

Definition beginClose (socket : nat) (st : State) : State :=
  mkState (alter (fun s => mkSocket CLOSING (closeListener s) (inbox s))
                 socket (sockets st))
          (nextSocket st) (activeConnections st) (wss st).

(** The socket closes: its ['close'] listener runs
    [activeConnections.delete(orderId)] with the identifier it captured,
    and a [wss] client leaves the client set. *)
Definition close (socket : nat) (st : State) : State :=
  match sockets st !! socket with
  | None => st
  | Some s =>
      mkState (<[socket := mkSocket CLOSED (closeListener s) (inbox s)]> (sockets st))
              (nextSocket st)
              (match closeListener s with
               | Some orderId => delete orderId (activeConnections st)
               | None => activeConnections st
               end)
              (filter (fun c => c ≠ socket) <$> wss st)
  end.

(** [initializeWebSocket(server)]. *)
Definition initializeWebSocket (st : State) : State :=
  mkState (sockets st) (nextSocket st) (activeConnections st) (Some []).

(** A client connects to the standalone [wss] server. *)
Definition wssConnect (st : State) : nat * State :=
  let '(socket, st1) := newSocket st in
  (socket,
   mkState (sockets st1) (nextSocket st1) (activeConnections st1)
           ((fun cs => cs ++ [socket]) <$> wss st1)).

(** A client connects to the generic [/ws] endpoint of [setupWebSocket]:
    its listeners only log. *)
Definition wsConnect (st : State) : nat * State := newSocket st.


(** [clearConnections()]. *)
Definition clearConnections (st : State) : State :=
  mkState (sockets st) (nextSocket st) ∅ (wss st).

(** The messages a socket has been sent. *)
Definition received (st : State) (socket : nat) : list Message :=
  match sockets st !! socket with
  | Some s => inbox s
  | None => []
  end.

End Hub.

(* ===================================================================== *)
(** ** The world and the monad of awaited effects                          *)
(* ===================================================================== *)

(** What the program reads from outside and cannot influence: the values
    [Math.random()] returns call after call, whether the n-th call to an
    external service (database, queue) rejects and with which error message,
    and the base-36 rendering [Number.prototype.toString(36)]. *)
Record Oracle := mkOracle {
  random : nat -> number;
  fault : nat -> option string;
  toString36 : number -> string
}.

Record World := mkWorld {
  oracle : Oracle;
  clock : Time;                         (* the wall clock *)
  randoms : nat;                        (* calls to Math.random so far *)
  calls : nat;                          (* external calls so far *)
  store : gmap string OrderRow;         (* the orders table *)
  hub : Hub.State;                      (* websocket.ts module state *)
  queue : list Job;                     (* jobs added to the order queue *)
  (* history, written and never read by the program *)
  dbLog : list (string * Updates);      (* UPDATE statements executed *)
  published : list (string * Event);    (* calls to broadcastUpdate *)
  quoted : list Quote                   (* quotes the router returned *)
}.

Definition set_clock (t : Time) (w : World) : World :=
  mkWorld (oracle w) t (randoms w) (calls w) (store w) (hub w) (queue w)
          (dbLog w) (published w) (quoted w).
Definition set_randoms (n : nat) (w : World) : World :=
  mkWorld (oracle w) (clock w) n (calls w) (store w) (hub w) (queue w)
          (dbLog w) (published w) (quoted w).
Definition set_calls (n : nat) (w : World) : World :=
  mkWorld (oracle w) (clock w) (randoms w) n (store w) (hub w) (queue w)
          (dbLog w) (published w) (quoted w).
Definition set_store (t : gmap string OrderRow) (w : World) : World :=
  mkWorld (oracle w) (clock w) (randoms w) (calls w) t (hub w) (queue w)
          (dbLog w) (published w) (quoted w).
Definition set_hub (h : Hub.State) (w : World) : World :=
  mkWorld (oracle w) (clock w) (randoms w) (calls w) (store w) h (queue w)
          (dbLog w) (published w) (quoted w).
Definition set_queue (q : list Job) (w : World) : World :=
  mkWorld (oracle w) (clock w) (randoms w) (calls w) (store w) (hub w) q
          (dbLog w) (published w) (quoted w).
Definition log_update (orderId : string) (u : Updates) (w : World) : World :=
  mkWorld (oracle w) (clock w) (randoms w) (calls w) (store w) (hub w)
          (queue w) (dbLog w ++ [(orderId, u)]) (published w) (quoted w).
Definition log_publish (orderId : string) (e : Event) (w : World) : World :=
  mkWorld (oracle w) (clock w) (randoms w) (calls w) (store w) (hub w)
          (queue w) (dbLog w) (published w ++ [(orderId, e)]) (quoted w).
Definition log_quote (q : Quote) (w : World) : World :=
  mkWorld (oracle w) (clock w) (randoms w) (calls w) (store w) (hub w)
          (queue w) (dbLog w) (published w) (quoted w ++ [q]).

(** The outcome of an awaited computation: a value, or a thrown [Error]
    with its [message]. *)
Inductive Result (A : Type) : Type :=
| Ok (a : A)
| Throw (message : string).
Arguments Ok {A} a.
Arguments Throw {A} message.

Definition M (A : Type) : Type := World -> Result A * World.

Definition ret {A} (a : A) : M A := fun w => (Ok a, w).

(** [const x = await m; k x]: a rejection of [m] skips the rest. *)
Definition bind {A B} (m : M A) (k : A -> M B) : M B := fun w =>
  match m w with
  | (Ok a, w') => k a w'
  | (Throw e, w') => (Throw e, w')
  end.

Declare Scope await_scope.
Delimit Scope await_scope with await.
Bind Scope await_scope with M.
Notation "x ← y ; z" := (bind y (fun x => z))
  (at level 20, y at level 100, z at level 200, only parsing) : await_scope.
Notation "x ;; z" := (bind x (fun _ => z))
  (at level 100, z at level 200, only parsing, right associativity) : await_scope.
Local Open Scope await_scope.

Definition throw {A} (message : string) : M A := fun w => (Throw message, w).

(** [try { body } catch (error) { handler(error.message) }]. *)
Definition try_catch {A} (body : M A) (handler : string -> M A) : M A :=
  fun w =>
    match body w with
    | (Ok a, w') => (Ok a, w')
    | (Throw e, w') => handler e w'
    end.

(** [Math.random()]. *)
Definition Math_random : M number := fun w =>
  (Ok (random (oracle w) (randoms w)), set_randoms (S (randoms w)) w).

(** [Date.now()] and [new Date()]. *)
Definition Date_now : M Time := fun w => (Ok (clock w), w).

(** The delay [setTimeout(resolve, ms)] waits: whole milliseconds, and 1
    when [ms] is not between 1 and 2^31 - 1. *)
Definition TIMEOUT_MAX : Z := 2 ^ 31 - 1.

Definition timerDelay (ms : number) : Z :=
  match floor ms with
  | Some k => if (1 <=? k) && (k <=? TIMEOUT_MAX) then k else 1
  | None => 1
  end.

(** [await sleep(ms)]: the promise resolves when the timer fires. *)
Definition sleep (ms : number) : M unit := fun w =>
  (Ok tt, set_clock (clock w + timerDelay ms) w).

(** The next external call: counted, and rejected when the oracle says so. *)
Definition external : M unit := fun w =>
  match fault (oracle w) (calls w) with
  | Some e => (Throw e, set_calls (S (calls w)) w)
  | None => (Ok tt, set_calls (S (calls w)) w)
  end.

(** [broadcastUpdate(orderId, data)] of websocket.ts, on the hub of the
    world. *)
Definition broadcastUpdate (orderId : string) (data : Event) : M unit := fun w =>
  (Ok tt,
   log_publish orderId data
     (set_hub (Hub.broadcastUpdate (clock w) orderId data (hub w)) w)).

(** [await db.orders.update(orderId, updates)]: resolves to the updated
    row, or to [undefined] when no row has that identifier. *)
Definition db_orders_update (orderId : string) (updates : Updates)
  : M (option OrderRow) :=
  external;; fun w =>
    let t := Db.update orderId updates (clock w) (store w) in
    (Ok (t !! orderId), log_update orderId updates (set_store t w)).

(** [await db.orders.create(order)]: the primary key rejects a second row
    with the same identifier. *)
Definition db_orders_create (order : Order) : M OrderRow :=
  external;; fun w =>
    match store w !! o_id order with
    | Some _ =>
        (Throw "duplicate key value violates unique constraint orders_pkey", w)
    | None =>
        let r := Db.new_row order (clock w) in
        (Ok r, set_store (<[o_id order := r]> (store w)) w)
    end.

(** [await db.orders.getById(orderId)]. *)
Definition db_orders_getById (orderId : string) : M (option OrderRow) :=
  external;; fun w => (Ok (Db.getById orderId (store w)), w).

(** [await db.orders.getAll()]. *)
Definition db_orders_getAll : M (list OrderRow) :=
  external;; fun w => (Ok (Db.getAll (store w)), w).

(** [await orderQueue.add(name, data)] with the queue's default job
    options ([attempts: 3]). *)
Definition orderQueue_add (name : string) (data : Order) : M Job :=
  external;; fun w =>
    let j := mkJob name data 0 (Some 3%nat) in
    (Ok j, set_queue (queue w ++ [j]) w).

(** The router's result enters the history. *)
Definition quote (q : Quote) : M Quote := fun w => (Ok q, log_quote q w).

(* ===================================================================== *)
(** ** The mocked DEX router (dex-router.ts)                               *)
(* ===================================================================== *)

Module MockDexRouter.

Definition basePrice : number := of_Z 200.

Definition getRaydiumQuote (amount : number) : M Quote :=
  sleep (of_Z 200);;
  r ← Math_random;
  let variance := add (decimal 98 2) (mul r (decimal 4 2)) in
  let price := mul (mul basePrice variance) amount in
  now ← Date_now;
  quote (mkQuote "raydium" price (decimal 3 3) now).

Definition getMeteorQuote (amount : number) : M Quote :=
  sleep (of_Z 200);;
  r ← Math_random;
  let variance := add (decimal 97 2) (mul r (decimal 5 2)) in
  let price := mul (mul basePrice variance) amount in
  now ← Date_now;
  quote (mkQuote "meteora" price (decimal 2 3) now).

End MockDexRouter.

Definition chars : string :=
  "ABCDEFGHIJKLMNOPQRSTUVWXYZabcdefghijklmnopqrstuvwxyz0123456789".

(** [s.charAt(Math.floor(x))]: [charAt] takes NaN for position 0, and an
    infinity is outside every string. *)
Definition charAt_floor (s : string) (x : number) : string :=
  match x with
  | S754_nan => charAt s 0
  | _ => match floor x with
         | Some k => charAt s k
         | None => ""
         end
  end.

(** The loop of [generateMockTxHash] with [i] rounds to go. *)
Fixpoint generateMockTxHash_loop (i : nat) (hash : string) : M string :=
  match i with
  | O => ret hash
  | S i' =>
      r ← Math_random;
      let index := mul r (of_Z (Z.of_nat (String.length chars))) in
      generateMockTxHash_loop i' (hash +:+ charAt_floor chars index)
  end.

Definition generateMockTxHash : M string := generateMockTxHash_loop 88 "".

(* ===================================================================== *)
(** ** The workers (worker.ts)                                             *)
(* ===================================================================== *)

(** [Math.random().toString(36)] *)
Definition Number_toString36 (x : number) : M string := fun w =>
  (Ok (toString36 (oracle w) x), w).

(** [calculateBackoffDelay(attemptNumber)]. *)
Definition calculateBackoffDelay (attemptNumber : Z) : string :=
  let baseDelay := of_Z 2000 in
  let delayMs := mul baseDelay (pow2 (attemptNumber - 1)) in
  toFixed1 (div delayMs (of_Z 1000)) +:+ "s".

(** [job.opts.attempts || 3]. *)
Definition maxAttempts (job : Job) : nat :=
  match job_opts_attempts job with
  | Some (S n) => S n
  | _ => 3
  end.

(** *** First revision: the inline handler of [orderWorker] *)

Module OrderWorker.

(** The selection lines of the handler:
    [selectedDex = meteoraQuote.price > raydiumQuote.price ? 'meteora' : 'raydium']
    and [selectedQuote = selectedDex === 'meteora' ? meteoraQuote : raydiumQuote]. *)
Definition selectedDex (raydiumQuote meteoraQuote : Quote) : string :=
  if gt (q_price meteoraQuote) (q_price raydiumQuote)
  then "meteora" else "raydium".

Definition selectedQuote (raydiumQuote meteoraQuote : Quote) : Quote :=
  if String.eqb (selectedDex raydiumQuote meteoraQuote) "meteora"
  then meteoraQuote else raydiumQuote.

Definition orderWorker (job : Job) : M JobResult :=
  let order := job_data job in
  let attemptNumber := (job_attemptsMade job + 1)%nat in
  try_catch
    ((* Step 1: Pending *)
     broadcastUpdate (o_id order)
       (mkEvent "pending" "Order received and queued" (Some attemptNumber)
                None None None None None None None);;
     sleep (of_Z 500);;
     (* Step 2: Routing *)
     broadcastUpdate (o_id order) (event "routing" "Comparing DEX prices...");;
     raydiumQuote ← MockDexRouter.getRaydiumQuote (o_amount order);
     meteoraQuote ← MockDexRouter.getMeteorQuote (o_amount order);
     let selectedDex := selectedDex raydiumQuote meteoraQuote in
     let selectedQuote := selectedQuote raydiumQuote meteoraQuote in
     (* Step 3: Building *)
     broadcastUpdate (o_id order)
       (mkEvent "building" ("Creating swap transaction on " +:+ selectedDex)
                None None (Some selectedDex) None None None None None);;
     sleep (of_Z 1000);;
     (* Step 4: Submitted *)
     txHash ← generateMockTxHash;
     broadcastUpdate (o_id order)
       (mkEvent "submitted" "Transaction submitted to blockchain"
                None None (Some selectedDex) (Some txHash) None None None None);;
     (* Step 5: Confirmation delay *)
     r ← Math_random;
     sleep (add (of_Z 2000) (mul r (of_Z 1000)));;
     let executedPrice := q_price selectedQuote in
     (* Step 6: Confirmed *)
     broadcastUpdate (o_id order)
       (mkEvent "confirmed" "Swap executed successfully" None None
                (Some selectedDex) (Some txHash) (Some executedPrice)
                None None None);;
     (* Save to database *)
     db_orders_update (o_id order)
       (mkUpdates (Some "confirmed") (Some selectedDex) (Some txHash)
                  (Some executedPrice) None);;
     ret (mkJobResult (o_id order) None selectedDex executedPrice txHash
                      (Some attemptNumber)))
    (fun error =>
       let isFinalAttempt := (maxAttempts job <=? attemptNumber)%nat in
       (if isFinalAttempt then
          broadcastUpdate (o_id order)
            (mkEvent "failed"
                     ("Order failed after " +:+ show_nat attemptNumber
                        +:+ " attempts: " +:+ error)
                     None (Some attemptNumber) None None None (Some error)
                     None None);;
          db_orders_update (o_id order)
            (mkUpdates (Some "failed") None None None (Some error));;
          ret tt
        else
          broadcastUpdate (o_id order)
            (mkEvent "retrying"
                     ("Attempt " +:+ show_nat attemptNumber
                        +:+ " failed, retrying...")
                     None None None None None (Some error)
                     (Some (calculateBackoffDelay (Z.of_nat attemptNumber)))
                     None));;
       throw error).

End OrderWorker.

(** *** Second revision: [processOrder] *)

Module ProcessOrder.

(** The selection lines of [processOrder]. *)
Definition selectedDex (raydiumQuote meteoraQuote : Quote) : string :=
  if gt (q_price meteoraQuote) (q_price raydiumQuote)
  then "METEORA" else "RAYDIUM".

Definition bestPrice (raydiumQuote meteoraQuote : Quote) : number :=
  if gt (q_price meteoraQuote) (q_price raydiumQuote)
  then q_price meteoraQuote else q_price raydiumQuote.

Definition processOrder (job : Job) : M JobResult :=
  let order := job_data job in
  let attemptNumber := (job_attemptsMade job + 1)%nat in
  let maxAttempts := maxAttempts job in
  try_catch
    ((* Step 1: Update to processing *)
     db_orders_update (o_id order)
       (mkUpdates (Some "processing") None None None None);;
     now ← Date_now;
     broadcastUpdate (o_id order)
       (mkEvent "processing" "Order is being processed" None None None None
                None None None (Some now));;
     sleep (of_Z 500);;
     (* Step 2: Get DEX quotes *)
     raydiumQuote ← MockDexRouter.getRaydiumQuote (o_amount order);
     meteoraQuote ← MockDexRouter.getMeteorQuote (o_amount order);
     let selectedDex := selectedDex raydiumQuote meteoraQuote in
     let bestPrice := bestPrice raydiumQuote meteoraQuote in
     now ← Date_now;
     broadcastUpdate (o_id order)
       (mkEvent "routing" ("Routing to " +:+ selectedDex) None None
                (Some selectedDex) None None None None (Some now));;
     (* Step 3: Building transaction *)
     sleep (of_Z 1000);;
     now ← Date_now;
     broadcastUpdate (o_id order)
       (mkEvent "building" "Building transaction" None None None None None
                None None (Some now));;
     (* Step 4: Submit transaction *)
     r ← Math_random;
     sleep (add (of_Z 2000) (mul r (of_Z 1000)));;
     now ← Date_now;
     r ← Math_random;
     suffix ← Number_toString36 r;
     let txHash := "tx_" +:+ digits now +:+ "_" +:+ substring_from 7 suffix in
     now ← Date_now;
     broadcastUpdate (o_id order)
       (mkEvent "submitted" "Transaction submitted" None None None
                (Some txHash) None None None (Some now));;
     (* Step 5: Confirmation *)
     sleep (of_Z 1000);;
     (* Step 6: Completed *)
     db_orders_update (o_id order)
       (mkUpdates (Some "completed") (Some selectedDex) (Some txHash)
                  (Some bestPrice) None);;
     now ← Date_now;
     broadcastUpdate (o_id order)
       (mkEvent "completed" "Order executed successfully" None None
                (Some selectedDex) (Some txHash) (Some bestPrice) None None
                (Some now));;
     ret (mkJobResult (o_id order) (Some "completed") selectedDex bestPrice
                      txHash None))
    (fun error =>
       let isFinalAttempt := (maxAttempts <=? attemptNumber)%nat in
       (if isFinalAttempt then
          db_orders_update (o_id order)
            (mkUpdates (Some "failed") None None None (Some error));;
          now ← Date_now;
          broadcastUpdate (o_id order)
            (mkEvent "failed"
                     ("Order failed after " +:+ show_nat attemptNumber
                        +:+ " attempts")
                     None None None None None (Some error) None (Some now))
        else
          let nextDelay := calculateBackoffDelay (Z.of_nat attemptNumber) in
          now ← Date_now;
          broadcastUpdate (o_id order)
            (mkEvent "retrying" ("Retrying in " +:+ nextDelay) None None
                     None None None (Some error) None (Some now)));;
       throw error).

End ProcessOrder.

(* ===================================================================== *)
(** ** The submission endpoint (routes.ts)                                 *)
(* ===================================================================== *)

Module Routes.

(** A value of the parsed JSON body, as far as the handler tells values
    apart. *)
Inductive JsValue :=
| JsUndefined
| JsNull
| JsBoolean (b : bool)
| JsNumber (x : number)
| JsString (s : string)
| JsObject.

Definition typeof (v : JsValue) : string :=
  match v with
  | JsUndefined => "undefined"
  | JsNull | JsObject => "object"
  | JsBoolean _ => "boolean"
  | JsNumber _ => "number"
  | JsString _ => "string"
  end.

(** [request.body]: the token symbols are strings when present. *)
Record OrderRequest := mkRequest {
  tokenIn : option string;
  tokenOut : option string;
  amount : JsValue;
  slippage : JsValue
}.

(** What the handler sends: the status code, the [error] and [code]
    fields of an error body, the [orderId] of an accepted order. *)
Record Reply := mkReply {
  statusCode : nat;
  reply_error : option string;
  reply_code : option string;
  reply_orderId : option string
}.

Definition reject (error code : string) : Reply :=
  mkReply 400 (Some error) (Some code) None.

(** [!token]: absent or the empty string. *)
Definition missing (token : option string) : bool :=
  match token with
  | None | Some EmptyString => true
  | Some _ => false
  end.

(** [/^[A-Z0-9]{2,10}$/.test(token)]. *)
Definition validTokenChar (c : ascii) : bool :=
  let n := nat_of_ascii c in
  ((65 <=? n) && (n <=? 90) || (48 <=? n) && (n <=? 57))%nat.

Definition validTokenPattern (token : string) : bool :=
  ((2 <=? String.length token) && (String.length token <=? 10))%nat
  && forallb validTokenChar (String.list_ascii_of_string token).

(** [slippage || 0.05]. *)
Definition slippageOrDefault (slippage : JsValue) : number :=
  match slippage with
  | JsNumber x =>
      match x with
      | S754_zero _ | S754_nan => decimal 5 2
      | _ => x
      end
  | _ => decimal 5 2
  end.

(** The checks of [POST /api/orders/execute], in the order of the source:
    the first failing one decides the reply; when all pass the validated
    fields come back. *)
Definition validate (body : OrderRequest)
  : Reply + (string * string * number * number) :=
  if missing (tokenIn body) then inl (reject "MISSING_TOKEN_IN" "ERR_001")
  else if missing (tokenOut body) then inl (reject "MISSING_TOKEN_OUT" "ERR_002")
  else match amount body with
  | JsUndefined | JsNull => inl (reject "MISSING_AMOUNT" "ERR_003")
  | JsNumber amount =>
      if le amount (of_Z 0) then inl (reject "INVALID_AMOUNT" "ERR_005")
      else
        let slippageCheck :=
          match slippage body with
          | JsUndefined => None
          | JsNumber x =>
              if lt x (of_Z 0) || gt x (of_Z 1)
              then Some (reject "INVALID_SLIPPAGE_RANGE" "ERR_007")
              else None
          | _ => Some (reject "INVALID_SLIPPAGE_TYPE" "ERR_006")
          end in
        match slippageCheck with
        | Some r => inl r
        | None =>
            let tokenIn := default "" (tokenIn body) in
            let tokenOut := default "" (tokenOut body) in
            if negb (validTokenPattern tokenIn)
            then inl (reject "INVALID_TOKEN_IN" "ERR_008")
            else if negb (validTokenPattern tokenOut)
            then inl (reject "INVALID_TOKEN_OUT" "ERR_009")
            else if String.eqb tokenIn tokenOut
            then inl (reject "SAME_TOKEN_SWAP" "ERR_010")
            else inr (tokenIn, tokenOut, amount,
                      slippageOrDefault (slippage body))
        end
  | _ => inl (reject "INVALID_AMOUNT_TYPE" "ERR_004")
  end.

(** The handler of [POST /api/orders/execute]. *)
Definition postExecute (body : OrderRequest) : M Reply :=
  try_catch
    (match validate body with
     | inl r => ret r
     | inr (tokenIn, tokenOut, amount, slippage) =>
         (* Generate orderId *)
         now ← Date_now;
         r ← Math_random;
         suffix ← Number_toString36 r;
         let orderId :=
           "order_" +:+ digits now +:+ "_" +:+ substring_from 7 suffix in
         (* Create order object *)
         now ← Date_now;
         let order := mkOrder orderId tokenIn tokenOut amount slippage
                              "pending" now now in
         (* Save to database *)
         db_orders_create order;;
         (* Add to BullMQ queue *)
         orderQueue_add orderId order;;
         ret (mkReply 202 None None (Some orderId))
     end)
    (fun error => ret (mkReply 500 (Some "INTERNAL_SERVER_ERROR")
                               (Some "ERR_500") None)).

(** What [GET /api/orders/:orderId] sends: the row with status 200, or an
    error body with its status code, [error] and [code]. *)
Inductive OrderReply :=
| SendOrder (order : OrderRow)
| SendError (statusCode : nat) (error code : string).

(** The handler of [GET /api/orders/:orderId]. *)
Definition getOrder (orderId : string) : M OrderReply :=
  try_catch
    (if trimsToEmpty orderId
     then ret (SendError 400 "INVALID_ORDER_ID" "ERR_011")
     else
       order ← db_orders_getById orderId;
       match order with
       | None => ret (SendError 404 "ORDER_NOT_FOUND" "ERR_404")
       | Some row => ret (SendOrder row)
       end)
    (fun error => ret (SendError 500 "DATABASE_ERROR" "ERR_502")).

(** What [GET /api/orders] sends. *)
Inductive ListReply :=
| SendList (total : nat) (orders : list OrderRow) (timestamp : Time)
| ListError (statusCode : nat) (error code : string).

(** The handler of [GET /api/orders]. *)
Definition listOrders : M ListReply :=
  try_catch
    (orders ← db_orders_getAll;
     now ← Date_now;
     ret (SendList (length orders) orders now))
    (fun error => ret (ListError 500 "DATABASE_ERROR" "ERR_503")).

End Routes.

(* ===================================================================== *)
(** ** Definitions the statements use                                      *)
(* ===================================================================== *)

(** The concrete scenario of the specification: Raydium quotes 204.10 and
    Meteora quotes 206.55. *)
Definition scenario_raydium : Quote := mkQuote "raydium" (decimal 20410 2) (decimal 3 3) 0.
Definition scenario_meteora : Quote := mkQuote "meteora" (decimal 20655 2) (decimal 2 3) 0.

(** ** Concrete scenarios *)

Module Scenario.

Definition t0 : Time := 1700000000000.

(** Every random draw is 0.5, which prints as [0.i] in base 36; the
    [k]-th external call fails when [failures k] says so. *)
Definition oracleWith (failures : nat -> option string) : Oracle :=
  mkOracle (fun _ => decimal 5 1) failures (fun _ => "0.i").

Definition noFailure : nat -> option string := fun _ => None.

(** The [k]-th external call is rejected. *)
Definition failAt (k : nat) : nat -> option string :=
  fun n => if Nat.eqb n k then Some "connection terminated" else None.


Definition order1 : Order :=
  mkOrder "order_1" "SOL" "USDC" (of_Z 10) (decimal 5 2) "pending" t0 t0.

(** The table after [order_1] was submitted. *)
Definition submitted : gmap string OrderRow :=
  {[ "order_1" := Db.new_row order1 t0 ]}.

Definition worldWith (failures : nat -> option string)
           (t : gmap string OrderRow) : World :=
  mkWorld (oracleWith failures) t0 0 0 t Hub.empty [] [] [] [].

(** The job of [order_1] at its attempt number [attemptsMade + 1], with
    the queue's default of three attempts. *)
Definition job1 (attemptsMade : nat) : Job :=
  mkJob "order_1" order1 attemptsMade (Some 3%nat).

End Scenario.

(** The quote each provider computes from the amount, the random number
    drawn and the time of the answer. *)
Definition raydiumQuoteOf (amount r : number) (now : Time) : Quote :=
  mkQuote "raydium"
    (mul (mul MockDexRouter.basePrice (add (decimal 98 2) (mul r (decimal 4 2))))
         amount)
    (decimal 3 3) now.

Definition meteoraQuoteOf (amount r : number) (now : Time) : Quote :=
  mkQuote "meteora"
    (mul (mul MockDexRouter.basePrice (add (decimal 97 2) (mul r (decimal 5 2))))
         amount)
    (decimal 2 3) now.

(** The update a successful attempt writes. *)
Definition settled (status venue txHash : string) (price : number) : Updates :=
  mkUpdates (Some status) (Some venue) (Some txHash) (Some price) None.

(** The event a successful attempt broadcasts last. *)
Definition settledEvent (status message venue txHash : string) (price : number)
           (timestamp : option Time) : Event :=
  mkEvent status message None None (Some venue) (Some txHash) (Some price)
          None None timestamp.



(** The [retrying] events of the two revisions. *)
Definition retryingEvent1 (attemptNumber : nat) (error : string) : Event :=
  mkEvent "retrying"
    ("Attempt " +:+ show_nat attemptNumber +:+ " failed, retrying...")
    None None None None None (Some error)
    (Some (calculateBackoffDelay (Z.of_nat attemptNumber))) None.

Definition retryingEvent2 (attemptNumber : nat) (error : string) (now : Time)
  : Event :=
  mkEvent "retrying"
    ("Retrying in " +:+ calculateBackoffDelay (Z.of_nat attemptNumber))
    None None None None None (Some error) None (Some now).

(** The delay of attempt [n] as the specification writes it: 2000 x 2^(n-1)
    milliseconds, in seconds with one decimal place and an [s]. *)
Definition delayString (n : Z) : string :=
  digits (2000 * 2 ^ (n - 1) / 1000) +:+ ".0" +:+ "s".

(** The loop [wss.clients.forEach] of the fallback. *)
Definition fanOut (m : Hub.Message) (clients : list nat) (st : Hub.State)
  : Hub.State :=
  foldl (fun acc client =>
           if Hub.isOpen acc client then Hub.send client m acc else acc)
        st clients.


(** A computation that leaves every existing row as it is. *)
Definition keeps_rows {A} (c : M A) : Prop :=
  forall w r w', c w = (r, w') ->
  forall id row, store w !! id = Some row -> store w' !! id = Some row.

(** ** Definitions of the further properties *)

(** Two updates of one row in a row carry what one update with these
    fields carries: the later value of a field wins. *)
Definition mergeUpdates (u1 u2 : Updates) : Updates :=
  mkUpdates (Db.COALESCE_opt (u_status u2) (u_status u1))
            (Db.COALESCE_opt (u_selectedDex u2) (u_selectedDex u1))
            (Db.COALESCE_opt (u_txHash u2) (u_txHash u1))
            (Db.COALESCE_opt (u_executedPrice u2) (u_executedPrice u1))
            (Db.COALESCE_opt (u_error u2) (u_error u1)).

(** What a run of a worker for [orderId] can have done, whatever its
    outcome. *)
Definition ownEffects (orderId : string) (w w' : World) : Prop :=
  oracle w' = oracle w /\
  queue w' = queue w /\
  Hub.activeConnections (hub w') = Hub.activeConnections (hub w) /\
  (exists evs, published w' = published w ++ evs /\
               Forall (fun p => p.1 = orderId) evs) /\
  (exists us, dbLog w' = dbLog w ++ us /\
              Forall (fun p => p.1 = orderId) us) /\
  (store w' = store w \/
   exists u now, store w' = Db.update orderId u now (store w)).

(** Two rows hold the same order: the columns [INSERT] fills and no
    [UPDATE] names. *)
Definition sameOrder (r r' : OrderRow) : Prop :=
  row_id r' = row_id r /\
  row_token_in r' = row_token_in r /\
  row_token_out r' = row_token_out r /\
  row_amount r' = row_amount r /\
  row_slippage r' = row_slippage r /\
  row_created_at r' = row_created_at r.

(** The identifier [POST /api/orders/execute] generates in world [w]:
    [`order_${Date.now()}_${Math.random().toString(36).substring(7)}`]. *)
Definition generatedOrderId (w : World) : string :=
  "order_" +:+ digits (clock w) +:+ "_"
    +:+ substring_from 7 (toString36 (oracle w) (random (oracle w) (randoms w))).

(** The order object the endpoint builds from the validated fields. *)
Definition submittedOrder (w : World) (tokenIn tokenOut : string)
           (amount slippage : number) : Order :=
  mkOrder (generatedOrderId w) tokenIn tokenOut amount slippage "pending"
          (clock w) (clock w).

(** A request as the end-to-end test sends it, the slippage left out. *)
Definition request1 : Routes.OrderRequest :=
  Routes.mkRequest (Some "SOL") (Some "USDC") (Routes.JsNumber (of_Z 10))
                   Routes.JsUndefined.

(** The body of the endpoint's 500 reply. *)
Definition internalError : Routes.Reply :=
  Routes.mkReply 500 (Some "INTERNAL_SERVER_ERROR") (Some "ERR_500") None.



(** The [n]-th random draw, scaled by [chars.length] and floored, is a
    position of [chars]. *)
Definition indexInRange (o : Oracle) (n : nat) : Prop :=
  exists k,
    floor (mul (random o n) (of_Z (Z.of_nat (String.length chars)))) = Some k /\
    0 <= k < Z.of_nat (String.length chars).

(** What can happen to the hub: a client opens [/ws/:orderId], the generic
    [/ws] or the standalone server; a socket starts closing; the ['close']
    event of a socket is emitted (once); the exported functions are
    called. *)
Inductive HubOp :=
| OpConnect (now : Time) (orderId : string)
| OpWsConnect
| OpInitialize
| OpWssConnect
| OpBeginClose (socket : nat)
| OpClose (socket : nat)
| OpBroadcast (now : Time) (orderId : string) (data : Event)
| OpClear.

Definition hubStep (st : Hub.State) (op : HubOp) : Hub.State :=
  match op with
  | OpConnect now orderId => snd (Hub.connect now orderId st)
  | OpWsConnect => snd (Hub.wsConnect st)
  | OpInitialize => Hub.initializeWebSocket st
  | OpWssConnect =>
      match Hub.wss st with
      | Some _ => snd (Hub.wssConnect st)
      | None => st
      end
  | OpBeginClose socket =>
      if Hub.isOpen st socket then Hub.beginClose socket st else st
  | OpClose socket =>
      match Hub.sockets st !! socket with
      | Some sock =>
          if Nat.eqb (Hub.readyState sock) Hub.CLOSED then st
          else Hub.close socket st
      | None => st
      end
  | OpBroadcast now orderId data => Hub.broadcastUpdate now orderId data st
  | OpClear => Hub.clearConnections st
  end.

(** The hub after a history that starts when the module is loaded. *)
Definition hubRun (ops : list HubOp) : Hub.State := foldl hubStep Hub.empty ops.

(** The socket came through [/ws/:orderId] for [orderId]. *)
Definition subscribedTo (st : Hub.State) (socket : nat) (orderId : string) : Prop :=
  exists sock, Hub.sockets st !! socket = Some sock /\
               Hub.closeListener sock = Some orderId.

(** The invariant of the hub. *)
Record hubInv (st : Hub.State) : Prop := mkHubInv {
  inv_fresh : forall s, is_Some (Hub.sockets st !! s) -> (s < Hub.nextSocket st)%nat;
  inv_registry : forall id s,
    Hub.activeConnections st !! id = Some s -> subscribedTo st s id;
  inv_clients : forall cs, Hub.wss st = Some cs ->
    NoDup cs /\
    forall c, c ∈ cs -> exists sock, Hub.sockets st !! c = Some sock /\
                                     Hub.closeListener sock = None;
  inv_inbox : forall s sock id,
    Hub.sockets st !! s = Some sock -> Hub.closeListener sock = Some id ->
    Forall (fun m => Hub.msg_orderId m = id) (Hub.inbox sock)
}.

(** The socket exists and is not open. *)
Definition closedIn (st : Hub.State) (socket : nat) : Prop :=
  is_Some (Hub.sockets st !! socket) /\ Hub.isOpen st socket = false.

(** A socket nothing was sent to and nothing can be sent to: it subscribed
    to no order and is no client of the [wss] server. *)
Definition inert (st : Hub.State) (s : nat) : Prop :=
  is_Some (Hub.sockets st !! s) /\
  (forall id, ~ subscribedTo st s id) /\
  (forall cs, Hub.wss st = Some cs -> s ∉ cs) /\
  Hub.received st s = [].

(* ===================================================================== *)
(** * Verification                                                         *)
(* ===================================================================== *)

(** ** Comparisons of numbers *)

Section Comparisons.

Lemma SFcompare_antisym (x y : number) :
  SFcompare y x = CompOpp <$> SFcompare x y.
Proof.
  destruct x as [sx|sx| |sx mx ex], y as [sy|sy| |sy my ey]; simpl;
    try (destruct sx); try (destruct sy); try reflexivity.
  - rewrite (Z.compare_antisym ex ey).
    destruct (ex ?= ey); simpl; try reflexivity.
    rewrite CompOpp_involutive. f_equal.
    exact (Pos.compare_cont_antisym my mx Eq).
  - rewrite (Z.compare_antisym ex ey).
    destruct (ex ?= ey); simpl; try reflexivity.
    f_equal. symmetry. exact (Pos.compare_cont_antisym mx my Eq).
Qed.

Lemma SFcompare_None (x y : number) :
  SFcompare x y = None -> isNaN x = true \/ isNaN y = true.
Proof.
  destruct x as [sx|sx| |sx mx ex], y as [sy|sy| |sy my ey]; simpl;
    intros H; try discriminate; auto.
Qed.

(** [x > y] and [y > x] exclude each other. *)
Lemma gt_asym (x y : number) : gt x y = true -> gt y x = false.
Proof.
  unfold gt, SFltb. rewrite (SFcompare_antisym y x).
  destruct (SFcompare y x) as [[]|]; simpl; congruence.
Qed.

(** [x === y] excludes [y > x]. *)
Lemma eq_not_gt (x y : number) : eq x y = true -> gt y x = false.
Proof.
  unfold eq, gt, SFeqb, SFltb.
  destruct (SFcompare x y) as [[]|]; simpl; congruence.
Qed.

(** Two numbers that are not equal are ordered one way or the other. *)
Lemma gt_total (x y : number) :
  isNaN x = false -> isNaN y = false -> eq x y = false ->
  gt y x = true \/ gt x y = true.
Proof.
  intros Hx Hy. unfold eq, gt, SFeqb, SFltb.
  rewrite (SFcompare_antisym x y).
  destruct (SFcompare x y) as [[]|] eqn:E; simpl; auto; try discriminate.
  destruct (SFcompare_None _ _ E); congruence.
Qed.

End Comparisons.

(** ** DEX selection *)

(** C1. For two quotes whose prices differ, both worker revisions select
    the venue of the strictly higher-priced quote and take that quote's
    price as the winning price; with Raydium at 204.10 and Meteora at
    206.55 the selection is Meteora at 206.55. *)
Theorem selection_prefers_higher_price (raydiumQuote meteoraQuote : Quote) :
  (isNaN (q_price raydiumQuote) = false ->
   isNaN (q_price meteoraQuote) = false ->
   eq (q_price raydiumQuote) (q_price meteoraQuote) = false ->
   (gt (q_price meteoraQuote) (q_price raydiumQuote) = true /\
    OrderWorker.selectedDex raydiumQuote meteoraQuote = "meteora" /\
    OrderWorker.selectedQuote raydiumQuote meteoraQuote = meteoraQuote /\
    ProcessOrder.selectedDex raydiumQuote meteoraQuote = "METEORA" /\
    ProcessOrder.bestPrice raydiumQuote meteoraQuote = q_price meteoraQuote)
   \/
   (gt (q_price raydiumQuote) (q_price meteoraQuote) = true /\
    OrderWorker.selectedDex raydiumQuote meteoraQuote = "raydium" /\
    OrderWorker.selectedQuote raydiumQuote meteoraQuote = raydiumQuote /\
    ProcessOrder.selectedDex raydiumQuote meteoraQuote = "RAYDIUM" /\
    ProcessOrder.bestPrice raydiumQuote meteoraQuote = q_price raydiumQuote))
  /\
  (q_price raydiumQuote = decimal 20410 2 ->
   q_price meteoraQuote = decimal 20655 2 ->
   OrderWorker.selectedDex raydiumQuote meteoraQuote = "meteora" /\
   q_price (OrderWorker.selectedQuote raydiumQuote meteoraQuote) = decimal 20655 2 /\
   ProcessOrder.selectedDex raydiumQuote meteoraQuote = "METEORA" /\
   ProcessOrder.bestPrice raydiumQuote meteoraQuote = decimal 20655 2).
Proof.
  split.
  - intros Hr Hm Hne.
    destruct (gt_total _ _ Hr Hm Hne) as [H|H]; [left|right]; split; trivial.
    + unfold OrderWorker.selectedQuote, OrderWorker.selectedDex,
        ProcessOrder.selectedDex, ProcessOrder.bestPrice.
      rewrite H. repeat split.
    + pose proof (gt_asym _ _ H) as H'.
      unfold OrderWorker.selectedQuote, OrderWorker.selectedDex,
        ProcessOrder.selectedDex, ProcessOrder.bestPrice.
      rewrite H'. repeat split.
  - intros Hr Hm.
    unfold OrderWorker.selectedQuote, OrderWorker.selectedDex,
      ProcessOrder.selectedDex, ProcessOrder.bestPrice.
    rewrite Hr, Hm.
    replace (gt (decimal 20655 2) (decimal 20410 2)) with true
      by (vm_compute; reflexivity).
    simpl. auto.
Qed.

Lemma selection_prefers_higher_price_witness :
  OrderWorker.selectedDex scenario_raydium scenario_meteora = "meteora" /\
  q_price (OrderWorker.selectedQuote scenario_raydium scenario_meteora)
    = decimal 20655 2 /\
  ProcessOrder.selectedDex scenario_raydium scenario_meteora = "METEORA" /\
  ProcessOrder.bestPrice scenario_raydium scenario_meteora = decimal 20655 2.
Proof.
  apply (selection_prefers_higher_price scenario_raydium scenario_meteora);
    reflexivity.
Defined.

(** C9. For two quotes whose prices are equal the selection is Raydium, at
    the price of the Raydium quote, in both worker revisions. *)
Theorem tie_resolves_to_raydium (raydiumQuote meteoraQuote : Quote) :
  eq (q_price raydiumQuote) (q_price meteoraQuote) = true ->
  OrderWorker.selectedDex raydiumQuote meteoraQuote = "raydium" /\
  OrderWorker.selectedQuote raydiumQuote meteoraQuote = raydiumQuote /\
  ProcessOrder.selectedDex raydiumQuote meteoraQuote = "RAYDIUM" /\
  ProcessOrder.bestPrice raydiumQuote meteoraQuote = q_price raydiumQuote.
Proof.
  intros H. apply eq_not_gt in H.
  unfold OrderWorker.selectedQuote, OrderWorker.selectedDex,
    ProcessOrder.selectedDex, ProcessOrder.bestPrice.
  rewrite H. repeat split.
Qed.

Lemma tie_resolves_to_raydium_witness :
  let tie_raydium := mkQuote "raydium" (decimal 20655 2) (decimal 3 3) 0 in
  OrderWorker.selectedDex tie_raydium scenario_meteora = "raydium" /\
  OrderWorker.selectedQuote tie_raydium scenario_meteora = tie_raydium /\
  ProcessOrder.selectedDex tie_raydium scenario_meteora = "RAYDIUM" /\
  ProcessOrder.bestPrice tie_raydium scenario_meteora = decimal 20655 2.
Proof.
  intros tie_raydium.
  apply (tie_resolves_to_raydium tie_raydium scenario_meteora).
  reflexivity.
Defined.

(** ** The store *)

Section Store.

Implicit Types (t : gmap string OrderRow) (u : Updates) (r : OrderRow).

(** An update rewrites the row of its own identifier with [set_row]... *)
Lemma update_lookup_eq t orderId u now :
  Db.update orderId u now t !! orderId = Db.set_row u now <$> t !! orderId.
Proof.
  unfold Db.update. destruct (t !! orderId) as [r|] eqn:E.
  - rewrite lookup_insert_eq. reflexivity.
  - rewrite E. reflexivity.
Qed.

(** ... and leaves the rows of all other identifiers alone. *)
Lemma update_lookup_ne t orderId other u now :
  orderId <> other ->
  Db.update orderId u now t !! other = t !! other.
Proof.
  intros Hne. unfold Db.update. destruct (t !! orderId) as [r|]; trivial.
  apply lookup_insert_ne. exact Hne.
Qed.

(** No update deletes or creates a row. *)
Lemma update_dom t orderId u now : dom (Db.update orderId u now t) = dom t.
Proof.
  unfold Db.update. destruct (t !! orderId) as [r|] eqn:E; trivial.
  rewrite dom_insert_L. apply elem_of_dom_2 in E.
  apply subseteq_union_1_L. apply singleton_subseteq_l. exact E.
Qed.

End Store.

(** ** Running the workers *)

Lemma generateMockTxHash_loop_ok i : forall hash w,
  exists h, generateMockTxHash_loop i hash w =
    (Ok h, set_randoms (i + randoms w)%nat w).
Proof.
  induction i as [|i IH]; intros hash w.
  - exists hash. destruct w; reflexivity.
  - cbn [generateMockTxHash_loop]. unfold bind, Math_random.
    match goal with |- context [generateMockTxHash_loop i ?h ?w'] =>
      destruct (IH h w') as [h' ->] end.
    exists h'. unfold set_randoms; cbn. do 2 f_equal. lia.
Qed.

(** [generateMockTxHash] always returns, after 88 draws. *)
Lemma generateMockTxHash_ok w :
  exists h, generateMockTxHash w = (Ok h, set_randoms (88 + randoms w)%nat w).
Proof. apply generateMockTxHash_loop_ok. Qed.

(** The two selections agree with their quote: the venue selected is the
    venue of the quote whose price is taken. *)
Lemma orderWorker_selection rq mq :
  (OrderWorker.selectedDex rq mq = "meteora" /\
   OrderWorker.selectedQuote rq mq = mq) \/
  (OrderWorker.selectedDex rq mq = "raydium" /\
   OrderWorker.selectedQuote rq mq = rq).
Proof.
  unfold OrderWorker.selectedQuote.
  unfold OrderWorker.selectedDex.
  destruct (gt (q_price mq) (q_price rq)); [left|right]; split; reflexivity.
Qed.

Lemma processOrder_selection rq mq :
  (ProcessOrder.selectedDex rq mq = "METEORA" /\
   ProcessOrder.bestPrice rq mq = q_price mq) \/
  (ProcessOrder.selectedDex rq mq = "RAYDIUM" /\
   ProcessOrder.bestPrice rq mq = q_price rq).
Proof.
  unfold ProcessOrder.selectedDex, ProcessOrder.bestPrice.
  destruct (gt (q_price mq) (q_price rq)); [left|right]; split; reflexivity.
Qed.

(** *** Running one step

    Each primitive has its equation; a run is followed one [bind] at a
    time, the world kept as a record of its fields. *)

Section Steps.

Context {A B : Type}.
Implicit Types (m : M A) (k : A -> M B) (w : World).

Lemma bind_Ok m k w a w1 : m w = (Ok a, w1) -> bind m k w = k a w1.
Proof. intros H. unfold bind. rewrite H. reflexivity. Qed.

Lemma bind_Throw m k w e w1 :
  m w = (Throw e, w1) -> bind m k w = (Throw e, w1).
Proof. intros H. unfold bind. rewrite H. reflexivity. Qed.

Lemma try_catch_Ok (body : M A) handler w a w1 :
  body w = (Ok a, w1) -> try_catch body handler w = (Ok a, w1).
Proof. intros H. unfold try_catch. rewrite H. reflexivity. Qed.

Lemma try_catch_Throw (body : M A) handler w e w1 :
  body w = (Throw e, w1) -> try_catch body handler w = handler e w1.
Proof. intros H. unfold try_catch. rewrite H. reflexivity. Qed.

End Steps.

Lemma bind_assoc {A B C} (m : M A) (k1 : A -> M B) (k : B -> M C) w :
  bind (bind m k1) k w = bind m (fun x => bind (k1 x) k) w.
Proof. unfold bind. destruct (m w) as [[a|e] w1]; reflexivity. Qed.

Lemma broadcastUpdate_run orderId data w :
  broadcastUpdate orderId data w =
  (Ok tt, log_publish orderId data
            (set_hub (Hub.broadcastUpdate (clock w) orderId data (hub w)) w)).
Proof. reflexivity. Qed.

Lemma sleep_run ms w :
  sleep ms w = (Ok tt, set_clock (clock w + timerDelay ms) w).
Proof. reflexivity. Qed.

Lemma Math_random_run w :
  Math_random w = (Ok (random (oracle w) (randoms w)), set_randoms (S (randoms w)) w).
Proof. reflexivity. Qed.

Lemma Date_now_run w : Date_now w = (Ok (clock w), w).
Proof. reflexivity. Qed.

Lemma Number_toString36_run x w :
  Number_toString36 x w = (Ok (toString36 (oracle w) x), w).
Proof. reflexivity. Qed.

Lemma external_fault w e :
  fault (oracle w) (calls w) = Some e ->
  external w = (Throw e, set_calls (S (calls w)) w).
Proof. intros H. unfold external. rewrite H. reflexivity. Qed.

Lemma external_ok w :
  fault (oracle w) (calls w) = None ->
  external w = (Ok tt, set_calls (S (calls w)) w).
Proof. intros H. unfold external. rewrite H. reflexivity. Qed.

Lemma db_orders_update_fault orderId u w e :
  fault (oracle w) (calls w) = Some e ->
  db_orders_update orderId u w = (Throw e, set_calls (S (calls w)) w).
Proof.
  intros H. unfold db_orders_update.
  apply bind_Throw, external_fault, H.
Qed.

Lemma db_orders_update_ok orderId u w :
  fault (oracle w) (calls w) = None ->
  db_orders_update orderId u w =
  (Ok (Db.update orderId u (clock w) (store w) !! orderId),
   log_update orderId u
     (set_store (Db.update orderId u (clock w) (store w))
        (set_calls (S (calls w)) w))).
Proof.
  intros H. unfold db_orders_update.
  rewrite (bind_Ok _ _ _ _ _ (external_ok w H)). reflexivity.
Qed.

Lemma getRaydiumQuote_run amount w :
  let q := raydiumQuoteOf amount (random (oracle w) (randoms w))
                          (clock w + timerDelay (of_Z 200)) in
  MockDexRouter.getRaydiumQuote amount w =
  (Ok q,
   log_quote q
     (set_randoms (S (randoms w))
        (set_clock (clock w + timerDelay (of_Z 200)) w))).
Proof. reflexivity. Qed.

Lemma getMeteorQuote_run amount w :
  let q := meteoraQuoteOf amount (random (oracle w) (randoms w))
                          (clock w + timerDelay (of_Z 200)) in
  MockDexRouter.getMeteorQuote amount w =
  (Ok q,
   log_quote q
     (set_randoms (S (randoms w))
        (set_clock (clock w + timerDelay (of_Z 200)) w))).
Proof. reflexivity. Qed.


Lemma raydiumQuoteOf_dex amount r now :
  q_dex (raydiumQuoteOf amount r now) = "raydium".
Proof. reflexivity. Qed.

Lemma meteoraQuoteOf_dex amount r now :
  q_dex (meteoraQuoteOf amount r now) = "meteora".
Proof. reflexivity. Qed.

(** Arithmetic, the hub and the store stay folded while a run is followed. *)
#[local] Opaque raydiumQuoteOf meteoraQuoteOf Nat.add timerDelay
  JsNumber.floor JsNumber.of_Z JsNumber.decimal JsNumber.add JsNumber.mul
  JsNumber.div JsNumber.gt JsNumber.digits calculateBackoffDelay
  Db.update Hub.broadcastUpdate String.append show_nat substring_from
  MockDexRouter.basePrice generateMockTxHash maxAttempts Nat.leb
  OrderWorker.selectedDex OrderWorker.selectedQuote
  ProcessOrder.selectedDex ProcessOrder.bestPrice.

Ltac norm_world H :=
  cbv beta iota zeta
      delta [set_clock set_randoms set_calls set_store set_hub set_queue
             log_update log_publish log_quote] in H;
  cbn [oracle clock randoms calls store hub queue dbLog published quoted] in H.

(** One step of the run recorded in [H]. *)
Ltac step H :=
  lazymatch type of H with
  | bind (broadcastUpdate ?id ?ev) ?k ?w = _ =>
      rewrite (bind_Ok _ k w _ _ (broadcastUpdate_run id ev w)) in H
  | bind (sleep ?ms) ?k ?w = _ =>
      rewrite (bind_Ok _ k w _ _ (sleep_run ms w)) in H
  | bind Math_random ?k ?w = _ =>
      rewrite (bind_Ok _ k w _ _ (Math_random_run w)) in H
  | bind Date_now ?k ?w = _ =>
      rewrite (bind_Ok _ k w _ _ (Date_now_run w)) in H
  | bind (Number_toString36 ?x) ?k ?w = _ =>
      rewrite (bind_Ok _ k w _ _ (Number_toString36_run x w)) in H
  | bind (MockDexRouter.getRaydiumQuote ?a) ?k ?w = _ =>
      rewrite (bind_Ok _ k w _ _ (getRaydiumQuote_run a w)) in H
  | bind (MockDexRouter.getMeteorQuote ?a) ?k ?w = _ =>
      rewrite (bind_Ok _ k w _ _ (getMeteorQuote_run a w)) in H
  | bind generateMockTxHash ?k ?w = _ =>
      let tx := fresh "txHash" in
      let E := fresh "E" in
      destruct (generateMockTxHash_ok w) as [tx E];
      rewrite (bind_Ok _ k w _ _ E) in H; clear E
  | bind (db_orders_update ?id ?u) ?k ?w = _ =>
      let F := fresh "Hfault" in
      let o := eval cbn [oracle] in (oracle w) in
      let c := eval cbn [calls] in (calls w) in
      destruct (fault o c) eqn:F;
      [ rewrite (bind_Throw _ k w _ _ (db_orders_update_fault id u w _ F)) in H
      | rewrite (bind_Ok _ k w _ _ (db_orders_update_ok id u w F)) in H ]
  | bind (if ?b then _ else _) _ _ = _ =>
      let L := fresh "Hfinal" in
      destruct b eqn:L
  | bind (bind ?m ?k1) ?k ?w = _ =>
      rewrite (bind_assoc m k1 k w) in H
  | ret ?a ?w = _ => unfold ret in H
  | throw ?e ?w = _ => unfold throw in H
  end;
  norm_world H.

(** The whole run of a worker recorded in [H]. *)
Ltac run_worker H :=
  unfold OrderWorker.orderWorker, ProcessOrder.processOrder in H;
  cbv zeta in H;
  lazymatch type of H with
  | try_catch ?body ?handler ?w = _ =>
      let Hb := fresh "Hbody" in
      let a := fresh "a" in
      let e := fresh "error" in
      let w1 := fresh "w1" in
      destruct (body w) as [[a|e] w1] eqn:Hb;
      [ rewrite (try_catch_Ok body handler w a w1 Hb) in H
      | rewrite (try_catch_Throw body handler w e w1 Hb) in H ];
      repeat (step Hb);
      try discriminate Hb;
      injection Hb as <- <-;
      norm_world H;
      repeat (step H)
  end.

Ltac world_simpl :=
  cbn [oracle clock randoms calls store hub queue dbLog published quoted
       r_orderId r_status r_selectedDex r_executedPrice r_txHash r_attempt];
  rewrite <- ?app_assoc;
  cbn [app].

(** The outcome of the run read off [H]. *)
Ltac finish_run H :=
  try discriminate H;
  injection H as <- <-;
  world_simpl.

(** *** Successful attempts *)

Lemma orderWorker_success job w res w' :
  OrderWorker.orderWorker job w = (Ok res, w') ->
  exists rq mq earlier,
    quoted w' = quoted w ++ [rq; mq] /\
    q_dex rq = "raydium" /\ q_dex mq = "meteora" /\
    r_selectedDex res = OrderWorker.selectedDex rq mq /\
    r_executedPrice res = q_price (OrderWorker.selectedQuote rq mq) /\
    dbLog w' = dbLog w ++
      [(o_id (job_data job),
        settled "confirmed" (r_selectedDex res) (r_txHash res) (r_executedPrice res))] /\
    store w' =
      Db.update (o_id (job_data job))
        (settled "confirmed" (r_selectedDex res) (r_txHash res) (r_executedPrice res))
        (clock w') (store w) /\
    published w' = published w ++ earlier ++
      [(o_id (job_data job),
        settledEvent "confirmed" "Swap executed successfully"
          (r_selectedDex res) (r_txHash res) (r_executedPrice res) None)].
Proof.
  intros H. run_worker H; finish_run H.
  eexists _, _, [_; _; _; _].
  split; [reflexivity|].
  split; [apply raydiumQuoteOf_dex|].
  split; [apply meteoraQuoteOf_dex|].
  repeat split.
Qed.

Lemma processOrder_success job w res w' :
  ProcessOrder.processOrder job w = (Ok res, w') ->
  exists rq mq earlier began now,
    quoted w' = quoted w ++ [rq; mq] /\
    q_dex rq = "raydium" /\ q_dex mq = "meteora" /\
    r_selectedDex res = ProcessOrder.selectedDex rq mq /\
    r_executedPrice res = ProcessOrder.bestPrice rq mq /\
    dbLog w' = dbLog w ++
      [(o_id (job_data job), mkUpdates (Some "processing") None None None None);
       (o_id (job_data job),
        settled "completed" (r_selectedDex res) (r_txHash res) (r_executedPrice res))] /\
    store w' =
      Db.update (o_id (job_data job))
        (settled "completed" (r_selectedDex res) (r_txHash res) (r_executedPrice res))
        (clock w')
        (Db.update (o_id (job_data job))
           (mkUpdates (Some "processing") None None None None) began (store w)) /\
    published w' = published w ++ earlier ++
      [(o_id (job_data job),
        settledEvent "completed" "Order executed successfully"
          (r_selectedDex res) (r_txHash res) (r_executedPrice res) (Some now))].
Proof.
  intros H. run_worker H; finish_run H.
  eexists _, _, [_; _; _; _], _, _.
  split; [reflexivity|].
  split; [apply raydiumQuoteOf_dex|].
  split; [apply meteoraQuoteOf_dex|].
  repeat split.
Qed.

(** *** Failed attempts with attempts left *)

Lemma orderWorker_retry job w e w' :
  OrderWorker.orderWorker job w = (Throw e, w') ->
  (job_attemptsMade job + 1 < maxAttempts job)%nat ->
  store w' = store w /\
  dbLog w' = dbLog w /\
  exists earlier,
    published w' = published w ++ earlier ++
      [(o_id (job_data job),
        mkEvent "retrying"
          ("Attempt " +:+ show_nat (job_attemptsMade job + 1)
             +:+ " failed, retrying...")
          None None None None None (Some e)
          (Some (calculateBackoffDelay (Z.of_nat (job_attemptsMade job + 1))))
          None)].
Proof.
  intros H Hleft. run_worker H; finish_run H;
    try (exfalso; apply Nat.leb_le in Hfinal; lia).
  repeat split. eexists [_; _; _; _; _]. reflexivity.
Qed.

Lemma processOrder_retry job w e w' :
  ProcessOrder.processOrder job w = (Throw e, w') ->
  (job_attemptsMade job + 1 < maxAttempts job)%nat ->
  (store w' = store w /\ dbLog w' = dbLog w
   \/
   exists began,
     store w' = Db.update (o_id (job_data job))
                  (mkUpdates (Some "processing") None None None None)
                  began (store w) /\
     dbLog w' = dbLog w ++
       [(o_id (job_data job), mkUpdates (Some "processing") None None None None)])
  /\
  exists earlier now,
    published w' = published w ++ earlier ++
      [(o_id (job_data job),
        mkEvent "retrying"
          ("Retrying in "
             +:+ calculateBackoffDelay (Z.of_nat (job_attemptsMade job + 1)))
          None None None None None (Some e) None (Some now))].
Proof.
  intros H Hleft. run_worker H; finish_run H;
    try (exfalso; apply Nat.leb_le in Hfinal; lia).
  - split; [left; split; reflexivity|].
    eexists [], _. reflexivity.
  - split; [right; eexists; split; reflexivity|].
    eexists [_; _; _; _], _. reflexivity.
Qed.

(** *** Failed attempts with no attempt left *)



(** *** Rows of other orders *)

Lemma orderWorker_other_rows job w r w' other :
  OrderWorker.orderWorker job w = (r, w') ->
  o_id (job_data job) <> other ->
  store w' !! other = store w !! other.
Proof.
  intros H Hne. run_worker H; finish_run H;
    rewrite ?update_lookup_ne by exact Hne; reflexivity.
Qed.

Lemma processOrder_other_rows job w r w' other :
  ProcessOrder.processOrder job w = (r, w') ->
  o_id (job_data job) <> other ->
  store w' !! other = store w !! other.
Proof.
  intros H Hne. run_worker H; finish_run H;
    rewrite ?update_lookup_ne by exact Hne; reflexivity.
Qed.

(* ===================================================================== *)
(** * The claims about the workers                                         *)
(* ===================================================================== *)

(** ** Successful settlement *)

Lemma last_of_published {A} (l earlier : list A) (x : A) (l' : list A) :
  l' = l ++ earlier ++ [x] -> last l' = Some x.
Proof. intros ->. rewrite app_assoc. apply last_snoc. Qed.

(** The row an update with all four settlement fields leaves behind. *)
Lemma settled_row t orderId status venue txHash price now row :
  t !! orderId = Some row ->
  exists row',
    Db.update orderId (settled status venue txHash price) now t !! orderId
      = Some row' /\
    row_status row' = status /\
    row_selected_dex row' = Some venue /\
    row_tx_hash row' = Some txHash /\
    row_executed_price row' = Some price.
Proof.
  intros H. rewrite update_lookup_eq, H. cbn.
  eexists. split; [reflexivity|]. repeat split.
Qed.

(** C2 (amended). A successful attempt writes the final status, the
    selected venue, the executed price and the execution reference in one
    update, and its last broadcast carries the same fields; the price is
    the price of the quote of the selected venue.  The final status is
    [confirmed] in the first revision, where this update is the only one of
    the attempt, and [completed] in [processOrder], where a [processing]
    update precedes it. *)
Theorem settlement_is_one_update (job : Job) (w w' : World) (res : JobResult) :
  let id := o_id (job_data job) in
  let venue := r_selectedDex res in
  let price := r_executedPrice res in
  let txHash := r_txHash res in
  (OrderWorker.orderWorker job w = (Ok res, w') ->
   (exists rq mq,
      quoted w' = quoted w ++ [rq; mq] /\
      (venue = "meteora" /\ q_dex mq = "meteora" /\ price = q_price mq \/
       venue = "raydium" /\ q_dex rq = "raydium" /\ price = q_price rq)) /\
   dbLog w' = dbLog w ++ [(id, settled "confirmed" venue txHash price)] /\
   store w' =
     Db.update id (settled "confirmed" venue txHash price) (clock w') (store w) /\
   (forall row, store w !! id = Some row ->
      exists row', store w' !! id = Some row' /\
        row_status row' = "confirmed" /\ row_selected_dex row' = Some venue /\
        row_tx_hash row' = Some txHash /\ row_executed_price row' = Some price) /\
   last (published w') =
     Some (id, settledEvent "confirmed" "Swap executed successfully"
                 venue txHash price None))
  /\
  (ProcessOrder.processOrder job w = (Ok res, w') ->
   (exists rq mq,
      quoted w' = quoted w ++ [rq; mq] /\
      (venue = "METEORA" /\ q_dex mq = "meteora" /\ price = q_price mq \/
       venue = "RAYDIUM" /\ q_dex rq = "raydium" /\ price = q_price rq)) /\
   dbLog w' = dbLog w ++
     [(id, mkUpdates (Some "processing") None None None None);
      (id, settled "completed" venue txHash price)] /\
   (exists began,
      store w' =
        Db.update id (settled "completed" venue txHash price) (clock w')
          (Db.update id (mkUpdates (Some "processing") None None None None)
             began (store w))) /\
   (forall row, store w !! id = Some row ->
      exists row', store w' !! id = Some row' /\
        row_status row' = "completed" /\ row_selected_dex row' = Some venue /\
        row_tx_hash row' = Some txHash /\ row_executed_price row' = Some price) /\
   exists now,
     last (published w') =
       Some (id, settledEvent "completed" "Order executed successfully"
                   venue txHash price (Some now))).
Proof.
  cbv zeta. split; intros H.
  - destruct (orderWorker_success _ _ _ _ H)
      as (rq & mq & earlier & Hq & Hr & Hm & Hv & Hp & Hlog & Hst & Hpub).
    split; [|split; [exact Hlog|split; [exact Hst|split]]].
    + exists rq, mq. split; [exact Hq|].
      rewrite Hv, Hp.
      destruct (orderWorker_selection rq mq) as [[-> ->]|[-> ->]]; auto.
    + intros row Hrow. rewrite Hst. eapply settled_row. exact Hrow.
    + eapply last_of_published. exact Hpub.
  - destruct (processOrder_success _ _ _ _ H)
      as (rq & mq & earlier & began & now & Hq & Hr & Hm & Hv & Hp & Hlog
          & Hst & Hpub).
    split; [|split; [exact Hlog|split; [exists began; exact Hst|split]]].
    + exists rq, mq. split; [exact Hq|].
      rewrite Hv, Hp.
      destruct (processOrder_selection rq mq) as [[-> ->]|[-> ->]]; auto.
    + intros row Hrow. rewrite Hst. eapply settled_row.
      rewrite update_lookup_eq, Hrow. reflexivity.
    + exists now. eapply last_of_published. exact Hpub.
Qed.

Lemma settlement_is_one_update_witness :
  let job := Scenario.job1 0 in
  let w := Scenario.worldWith Scenario.noFailure Scenario.submitted in
  let run := OrderWorker.orderWorker job w in
  exists res,
    run = (Ok res, snd run) /\
    dbLog (snd run) =
      [("order_1",
        settled "confirmed" (r_selectedDex res) (r_txHash res) (r_executedPrice res))] /\
    (exists row', store (snd run) !! "order_1" = Some row' /\
        row_status row' = "confirmed" /\
        row_selected_dex row' = Some (r_selectedDex res) /\
        row_tx_hash row' = Some (r_txHash res) /\
        row_executed_price row' = Some (r_executedPrice res)).
Proof.
  intros job w run. eexists. split.
  - vm_compute. reflexivity.
  - destruct (proj1 (settlement_is_one_update job w (snd run) _)
                ltac:(vm_compute; reflexivity))
      as (_ & Hlog & _ & Hrow & _).
    split; [exact Hlog|].
    apply (Hrow (Db.new_row Scenario.order1 Scenario.t0)).
    vm_compute. reflexivity.
Defined.

(** The claim as stated fails on [processOrder]: its successful attempt
    persists two updates, and the final status is [completed]. *)
Lemma settlement_status_differs_in_processOrder :
  let job := Scenario.job1 0 in
  let w := Scenario.worldWith Scenario.noFailure Scenario.submitted in
  ~ (forall res w',
       ProcessOrder.processOrder job w = (Ok res, w') ->
       exists u,
         dbLog w' = dbLog w ++ [(o_id (job_data job), u)] /\
         u_status u = Some "confirmed" /\
         row_status <$> store w' !! o_id (job_data job) = Some "confirmed").
Proof.
  intros job w claim.
  destruct (ProcessOrder.processOrder job w) as [[res|e] w'] eqn:E.
  - destruct (claim res w' eq_refl) as (u & _ & _ & Hrow).
    vm_compute in E. injection E as <- <-.
    vm_compute in Hrow. discriminate Hrow.
  - vm_compute in E. discriminate E.
Qed.

(** ** Failed attempts *)

(** C3 (amended). When an attempt fails and attempts remain, the worker
    broadcasts a [retrying] event that carries the computed delay string:
    in [nextRetryIn] in the first revision, inside [message] in
    [processOrder].  The first revision persists nothing during the
    attempt.  [processOrder] persists at most the [processing] status it
    writes when the attempt begins: either the store is unchanged, or the
    order's row differs from the row at the start only by that update. *)
Theorem retry_broadcasts_and_persists_no_outcome
        (job : Job) (w w' : World) (e : string) :
  (job_attemptsMade job + 1 < maxAttempts job)%nat ->
  let id := o_id (job_data job) in
  let attemptNumber := (job_attemptsMade job + 1)%nat in
  (OrderWorker.orderWorker job w = (Throw e, w') ->
   store w' = store w /\
   dbLog w' = dbLog w /\
   last (published w') = Some (id, retryingEvent1 attemptNumber e))
  /\
  (ProcessOrder.processOrder job w = (Throw e, w') ->
   (store w' = store w /\ dbLog w' = dbLog w
    \/
    exists began,
      store w' = Db.update id (mkUpdates (Some "processing") None None None None)
                   began (store w) /\
      dbLog w' = dbLog w ++
        [(id, mkUpdates (Some "processing") None None None None)]) /\
   exists now,
     last (published w') = Some (id, retryingEvent2 attemptNumber e now)).
Proof.
  intros Hleft. cbv zeta. split; intros H.
  - destruct (orderWorker_retry _ _ _ _ H Hleft) as (Hst & Hlog & earlier & Hpub).
    repeat split; trivial. eapply last_of_published. exact Hpub.
  - destruct (processOrder_retry _ _ _ _ H Hleft) as (Hst & earlier & now & Hpub).
    split; [exact Hst|]. exists now. eapply last_of_published. exact Hpub.
Qed.

Lemma retry_broadcasts_and_persists_no_outcome_witness :
  let job := Scenario.job1 0 in
  let w := Scenario.worldWith (Scenario.failAt 0) Scenario.submitted in
  let run := OrderWorker.orderWorker job w in
  run = (Throw "connection terminated", snd run) /\
  store (snd run) = store w /\
  dbLog (snd run) = dbLog w /\
  last (published (snd run)) =
    Some ("order_1", retryingEvent1 1 "connection terminated").
Proof.
  intros job w run. split.
  - vm_compute. reflexivity.
  - apply (retry_broadcasts_and_persists_no_outcome job w (snd run)
             "connection terminated").
    + vm_compute. lia.
    + vm_compute. reflexivity.
Defined.

(** The claim as stated fails on [processOrder]: the first attempt of
    [order_1], whose final write is rejected, leaves the row at
    [processing], not at the [pending] it had when the attempt began. *)
Lemma failed_attempt_changes_record_in_processOrder :
  let job := Scenario.job1 0 in
  let w := Scenario.worldWith (Scenario.failAt 1) Scenario.submitted in
  ~ (forall e w',
       ProcessOrder.processOrder job w = (Throw e, w') ->
       (job_attemptsMade job + 1 < maxAttempts job)%nat ->
       store w' !! o_id (job_data job) = store w !! o_id (job_data job)).
Proof.
  intros job w claim.
  destruct (ProcessOrder.processOrder job w) as [[res|e] w'] eqn:E.
  - vm_compute in E. discriminate E.
  - assert (Hleft : (job_attemptsMade job + 1 < maxAttempts job)%nat)
      by (vm_compute; lia).
    pose proof (claim e w' eq_refl Hleft) as Hrow.
    vm_compute in E. injection E as <- <-.
    vm_compute in Hrow. discriminate Hrow.
Qed.




(** ** The backoff delay string *)

Lemma calculateBackoffDelay_table :
  forallb (fun k => String.eqb (calculateBackoffDelay (Z.of_nat k))
                               (delayString (Z.of_nat k)))
          (seq 1 69) = true.
Proof. vm_compute. reflexivity. Qed.

Lemma calculateBackoffDelay_upto_69 (n : nat) :
  (1 <= n <= 69)%nat ->
  calculateBackoffDelay (Z.of_nat n) = delayString (Z.of_nat n).
Proof.
  intros Hn. apply String.eqb_eq.
  pose proof calculateBackoffDelay_table as T.
  rewrite forallb_forall in T. apply T.
  apply in_seq. lia.
Qed.

(** C5 (amended). For every attempt number n from 1 to 69, the delay string
    of the [retrying] broadcast after the n-th failed attempt is
    2000 x 2^(n-1) / 1000 seconds with one decimal place and an [s]
    ([2.0s] for attempt 1, [4.0s] for attempt 2); the first revision
    carries it in [nextRetryIn], [processOrder] inside its message. *)
Theorem retrying_delay_string (n : nat) :
  (1 <= n <= 69)%nat ->
  calculateBackoffDelay (Z.of_nat n) = delayString (Z.of_nat n) /\
  (n = 1%nat -> delayString (Z.of_nat n) = "2.0s") /\
  (n = 2%nat -> delayString (Z.of_nat n) = "4.0s") /\
  forall (job : Job) (w w' : World) (e : string),
    (job_attemptsMade job + 1)%nat = n ->
    (n < maxAttempts job)%nat ->
    (OrderWorker.orderWorker job w = (Throw e, w') ->
     exists ev,
       last (published w') = Some (o_id (job_data job), ev) /\
       ev_status ev = "retrying" /\
       ev_nextRetryIn ev = Some (delayString (Z.of_nat n)))
    /\
    (ProcessOrder.processOrder job w = (Throw e, w') ->
     exists ev,
       last (published w') = Some (o_id (job_data job), ev) /\
       ev_status ev = "retrying" /\
       ev_message ev = "Retrying in " +:+ delayString (Z.of_nat n)).
Proof.
  intros Hn. pose proof (calculateBackoffDelay_upto_69 n Hn) as Hdelay.
  split; [exact Hdelay|].
  split; [intros ->; vm_compute; reflexivity|].
  split; [intros ->; vm_compute; reflexivity|].
  intros job w w' e <- Hleft. split; intros H.
  - destruct (orderWorker_retry _ _ _ _ H Hleft) as (_ & _ & earlier & Hpub).
    eexists. split; [eapply last_of_published; exact Hpub|].
    split; [reflexivity|]. cbn [ev_nextRetryIn]. rewrite Hdelay. reflexivity.
  - destruct (processOrder_retry _ _ _ _ H Hleft) as (_ & earlier & now & Hpub).
    eexists. split; [eapply last_of_published; exact Hpub|].
    split; [reflexivity|]. cbn [ev_message]. rewrite Hdelay. reflexivity.
Qed.

Lemma retrying_delay_string_witness :
  calculateBackoffDelay 2 = "4.0s" /\
  let job := Scenario.job1 1 in
  let w := Scenario.worldWith (Scenario.failAt 0) Scenario.submitted in
  exists ev,
    last (published (snd (OrderWorker.orderWorker job w))) = Some ("order_1", ev) /\
    ev_status ev = "retrying" /\ ev_nextRetryIn ev = Some "4.0s".
Proof.
  destruct (retrying_delay_string 2 ltac:(lia)) as (Hd & _ & H2 & Hrun).
  split.
  - rewrite <- (H2 eq_refl). exact Hd.
  - intros job w.
    destruct (Hrun job w (snd (OrderWorker.orderWorker job w))
                   "connection terminated"
                   ltac:(reflexivity) ltac:(vm_compute; lia)) as (H & _).
    rewrite <- (H2 eq_refl). apply H. vm_compute. reflexivity.
Defined.

(** The claim as stated fails at attempt 70: the delay is 2^70 seconds,
    which is above 10^21, and [toFixed] prints such a number in exponential
    notation.  A job that allows a hundred attempts broadcasts that string
    when its 70th attempt fails. *)
Lemma delay_string_of_attempt_70 :
  let job := mkJob "order_1" Scenario.order1 69 (Some 100%nat) in
  let w := Scenario.worldWith (Scenario.failAt 0) Scenario.submitted in
  calculateBackoffDelay 70 = "1.1805916207174113e+21s" /\
  delayString 70 = "1180591620717411303424.0s" /\
  calculateBackoffDelay 70 <> delayString 70 /\
  (ev_status ∘ snd) <$> last (published (snd (OrderWorker.orderWorker job w)))
    = Some "retrying" /\
  (ev_nextRetryIn ∘ snd) <$> last (published (snd (OrderWorker.orderWorker job w)))
    = Some (Some "1.1805916207174113e+21s").
Proof.
  intros job w.
  split; [vm_compute; reflexivity|].
  split; [vm_compute; reflexivity|].
  split; [vm_compute; discriminate|].
  split; vm_compute; reflexivity.
Qed.

(* ===================================================================== *)
(** * The claims about the broadcast hub                                   *)
(* ===================================================================== *)

#[local] Transparent Hub.broadcastUpdate.

Section HubFacts.

Implicit Types (st : Hub.State) (m : Hub.Message).

Lemma received_send st socket m other :
  Hub.received (Hub.send socket m st) other =
  if decide (other = socket /\ is_Some (Hub.sockets st !! socket))
  then Hub.received st other ++ [m]
  else Hub.received st other.
Proof.
  unfold Hub.received, Hub.send. cbn [Hub.sockets].
  destruct (decide (other = socket)) as [->|Hne].
  - rewrite lookup_alter_eq.
    destruct (Hub.sockets st !! socket) as [s|] eqn:E; cbn.
    + rewrite decide_True by (split; [reflexivity|eauto]). reflexivity.
    + rewrite decide_False; [reflexivity|]. intros [_ [x Hx]]. discriminate.
  - rewrite lookup_alter_ne by congruence.
    rewrite decide_False by (intros [? _]; contradiction). reflexivity.
Qed.

Lemma isOpen_send st socket m other :
  Hub.isOpen (Hub.send socket m st) other = Hub.isOpen st other.
Proof.
  unfold Hub.isOpen, Hub.send. cbn [Hub.sockets].
  destruct (decide (other = socket)) as [->|Hne].
  - rewrite lookup_alter_eq. destruct (Hub.sockets st !! socket); reflexivity.
  - rewrite lookup_alter_ne by congruence. reflexivity.
Qed.

Lemma isOpen_is_Some st socket :
  Hub.isOpen st socket = true -> is_Some (Hub.sockets st !! socket).
Proof.
  unfold Hub.isOpen. destruct (Hub.sockets st !! socket); [eauto|discriminate].
Qed.

Lemma fanOut_cons m c clients st :
  fanOut m (c :: clients) st =
  fanOut m clients (if Hub.isOpen st c then Hub.send c m st else st).
Proof. reflexivity. Qed.

Lemma fanOut_facts m clients : forall st,
  Hub.activeConnections (fanOut m clients st) = Hub.activeConnections st /\
  Hub.wss (fanOut m clients st) = Hub.wss st /\
  (forall s, Hub.isOpen (fanOut m clients st) s = Hub.isOpen st s) /\
  (NoDup clients ->
   forall s, Hub.received (fanOut m clients st) s =
             if decide (s ∈ clients /\ Hub.isOpen st s = true)
             then Hub.received st s ++ [m]
             else Hub.received st s).
Proof.
  induction clients as [|c clients IH]; intros st.
  - cbn. split; [reflexivity|split; [reflexivity|split; [reflexivity|]]].
    intros _ s.
    rewrite decide_False; [reflexivity|]. intros [H _]. inversion H.
  - rewrite fanOut_cons.
    set (st1 := if Hub.isOpen st c then Hub.send c m st else st).
    assert (Hopen1 : forall s, Hub.isOpen st1 s = Hub.isOpen st s).
    { intros s. subst st1. destruct (Hub.isOpen st c); [apply isOpen_send|reflexivity]. }
    destruct (IH st1) as (Hreg & Hwss & Hopen & Hrecv).
    split; [|split; [|split]].
    + rewrite Hreg. subst st1. destruct (Hub.isOpen st c); reflexivity.
    + rewrite Hwss. subst st1. destruct (Hub.isOpen st c); reflexivity.
    + intros s. rewrite Hopen. apply Hopen1.
    + intros Hnd s. apply NoDup_cons in Hnd as [Hc Hnd].
      rewrite (Hrecv Hnd s), Hopen1.
      destruct (decide (s = c)) as [->|Hne].
      * rewrite decide_False by (intros [? _]; contradiction).
        subst st1. destruct (Hub.isOpen st c) eqn:Ho.
        -- rewrite received_send.
           rewrite decide_True by (split; [reflexivity|apply isOpen_is_Some, Ho]).
           rewrite decide_True by (split; [left|reflexivity]). reflexivity.
        -- rewrite decide_False by (intros [_ ?]; discriminate). reflexivity.
      * assert (Hsame : Hub.received st1 s = Hub.received st s).
        { subst st1. destruct (Hub.isOpen st c); [|reflexivity].
          rewrite received_send.
          rewrite decide_False by (intros [? _]; contradiction). reflexivity. }
        rewrite Hsame.
        destruct (decide (s ∈ clients /\ Hub.isOpen st s = true)) as [[Hin Ho]|Hn].
        -- rewrite decide_True by (split; [right; exact Hin|exact Ho]). reflexivity.
        -- rewrite decide_False; [reflexivity|].
           intros [Hin Ho]. apply Hn. split; [|exact Ho].
           apply elem_of_cons in Hin as [?|?]; [contradiction|assumption].
Qed.

(** [broadcastUpdate] by cases. *)
Lemma broadcastUpdate_targeted now orderId data st socket :
  Hub.activeConnections st !! orderId = Some socket ->
  Hub.isOpen st socket = true ->
  Hub.broadcastUpdate now orderId data st =
  Hub.send socket (Hub.envelope now orderId data) st.
Proof.
  intros Hreg Hopen. unfold Hub.broadcastUpdate. rewrite Hreg, Hopen. reflexivity.
Qed.

Lemma broadcastUpdate_fallback now orderId data st :
  (forall socket, Hub.activeConnections st !! orderId = Some socket ->
                  Hub.isOpen st socket = false) ->
  Hub.broadcastUpdate now orderId data st =
  match Hub.wss st with
  | Some clients => fanOut (Hub.envelope now orderId data) clients st
  | None => st
  end.
Proof.
  intros Hnone. unfold Hub.broadcastUpdate.
  destruct (Hub.activeConnections st !! orderId) as [socket|] eqn:E.
  - rewrite (Hnone socket eq_refl). reflexivity.
  - reflexivity.
Qed.

End HubFacts.



(** ** Subscribing twice to one order *)

(** A second subscription replaces the first in the registry, and a publish
    made right after it reaches the new socket and not the old one. *)
Lemma connect_replaces now1 now2 now3 orderId data st :
  let '(s1, st1) := Hub.connect now1 orderId st in
  let '(s2, st2) := Hub.connect now2 orderId st1 in
  let st3 := Hub.broadcastUpdate now3 orderId data st2 in
  s1 <> s2 /\
  Hub.activeConnections st1 !! orderId = Some s1 /\
  Hub.activeConnections st2 !! orderId = Some s2 /\
  Hub.received st3 s2 = Hub.received st2 s2 ++ [Hub.envelope now3 orderId data] /\
  Hub.received st3 s1 = Hub.received st2 s1.
Proof.
  unfold Hub.connect, Hub.newSocket. cbn [fst snd].
  set (s1 := Hub.nextSocket st).
  match goal with |- context [Hub.websocketRoute now1 orderId s1 ?x] =>
    set (st1 := Hub.websocketRoute now1 orderId s1 x) end.
  assert (Hn1 : Hub.nextSocket st1 = S s1) by reflexivity.
  rewrite Hn1.
  match goal with |- context [Hub.websocketRoute now2 orderId (S s1) ?x] =>
    set (st2 := Hub.websocketRoute now2 orderId (S s1) x) end.
  assert (Hreg2 : Hub.activeConnections st2 !! orderId = Some (S s1)).
  { subst st2. unfold Hub.websocketRoute, Hub.send.
    cbn [Hub.activeConnections]. apply lookup_insert_eq. }
  assert (Hopen2 : Hub.isOpen st2 (S s1) = true).
  { subst st2. unfold Hub.isOpen, Hub.websocketRoute, Hub.send.
    cbn [Hub.sockets]. rewrite !lookup_alter_eq, lookup_insert_eq.
    reflexivity. }
  split; [lia|]. split.
  { subst st1. unfold Hub.websocketRoute, Hub.send.
    cbn [Hub.activeConnections]. apply lookup_insert_eq. }
  split; [exact Hreg2|].
  rewrite (broadcastUpdate_targeted _ _ _ _ _ Hreg2 Hopen2).
  rewrite !received_send. split.
  - rewrite decide_True by (split; [reflexivity|apply isOpen_is_Some, Hopen2]).
    reflexivity.
  - rewrite decide_False by (intros [? _]; lia). reflexivity.
Qed.

(** C10. Two subscriptions to one order followed by the close of the first
    socket: the ['close'] listener of the first socket deletes the entry of
    the order, which by then holds the second socket.  The second socket,
    still open and the most recently registered, is no longer in the
    registry, and a publish for the order is not sent to it. *)
Theorem stale_close_unregisters_latest_sink
        (now1 now2 now3 : Time) (orderId : string) (data : Event)
        (st : Hub.State) :
  let '(s1, st1) := Hub.connect now1 orderId st in
  let '(s2, st2) := Hub.connect now2 orderId st1 in
  let st3 := Hub.close s1 st2 in
  let st4 := Hub.broadcastUpdate now3 orderId data st3 in
  Hub.activeConnections st2 !! orderId = Some s2 /\
  Hub.isOpen st3 s2 = true /\
  Hub.activeConnections st3 !! orderId = None /\
  (Hub.wss st = None -> st4 = st3 /\ Hub.received st4 s2 = Hub.received st2 s2).
Proof.
  pose proof (connect_replaces now1 now2 now3 orderId data st) as Hrep.
  unfold Hub.connect, Hub.newSocket in *. cbn [fst snd] in *.
  set (s1 := Hub.nextSocket st) in *.
  match goal with |- context [Hub.websocketRoute now1 orderId s1 ?x] =>
    set (st1 := Hub.websocketRoute now1 orderId s1 x) in * end.
  assert (Hn1 : Hub.nextSocket st1 = S s1) by reflexivity.
  rewrite Hn1 in *.
  match goal with |- context [Hub.websocketRoute now2 orderId (S s1) ?x] =>
    set (st2 := Hub.websocketRoute now2 orderId (S s1) x) in * end.
  destruct Hrep as (_ & _ & Hreg2 & _).
  assert (Hs1 : exists s, Hub.sockets st2 !! s1 = Some s /\
                          Hub.closeListener s = Some orderId).
  { subst st2 st1. unfold Hub.websocketRoute, Hub.send. cbn [Hub.sockets].
    rewrite lookup_alter_ne, lookup_alter_ne, lookup_insert_ne by lia.
    rewrite !lookup_alter_eq, lookup_insert_eq. cbn.
    eexists. split; reflexivity. }
  destruct Hs1 as (sock1 & Hsock1 & Hlistener).
  assert (Hopen2 : Hub.isOpen st2 (S s1) = true).
  { subst st2. unfold Hub.isOpen, Hub.websocketRoute, Hub.send.
    cbn [Hub.sockets]. rewrite !lookup_alter_eq, lookup_insert_eq.
    reflexivity. }
  assert (Hreg3 : Hub.activeConnections (Hub.close s1 st2) !! orderId = None).
  { unfold Hub.close. rewrite Hsock1, Hlistener. cbn [Hub.activeConnections].
    apply lookup_delete_eq. }
  assert (Hopen3 : Hub.isOpen (Hub.close s1 st2) (S s1) = true).
  { unfold Hub.close. rewrite Hsock1. unfold Hub.isOpen in *.
    cbn [Hub.sockets]. rewrite lookup_insert_ne by lia. exact Hopen2. }
  split; [exact Hreg2|]. split; [exact Hopen3|]. split; [exact Hreg3|].
  intros Hwss.
  assert (Hsame : Hub.broadcastUpdate now3 orderId data (Hub.close s1 st2)
                  = Hub.close s1 st2).
  { rewrite broadcastUpdate_fallback by (intros s; rewrite Hreg3; discriminate).
    unfold Hub.close at 1. rewrite Hsock1. cbn [Hub.wss].
    replace (Hub.wss st2) with (Hub.wss st) by reflexivity.
    rewrite Hwss. reflexivity. }
  split; [exact Hsame|]. rewrite Hsame.
  unfold Hub.close, Hub.received. rewrite Hsock1. cbn [Hub.sockets].
  rewrite lookup_insert_ne by lia. reflexivity.
Qed.

Lemma stale_close_unregisters_latest_sink_witness :
  let ev := event "confirmed" "Swap executed successfully" in
  let st2 := snd (Hub.connect 2000 "order_1"
                    (snd (Hub.connect 1000 "order_1" Hub.empty))) in
  let st3 := Hub.close 0 st2 in
  let st4 := Hub.broadcastUpdate 3000 "order_1" ev st3 in
  Hub.activeConnections st2 !! "order_1" = Some 1%nat /\
  Hub.isOpen st3 1 = true /\
  Hub.activeConnections st3 !! "order_1" = None /\
  Hub.received st4 1 = Hub.received st2 1.
Proof.
  intros ev st2 st3 st4.
  pose proof (stale_close_unregisters_latest_sink
                1000 2000 3000 "order_1" ev Hub.empty) as H.
  cbv beta iota zeta delta [Hub.connect Hub.newSocket] in H.
  destruct H as (Hreg & Hopen & Hgone & Hdrop).
  destruct (Hdrop eq_refl) as (_ & Hrecv).
  split; [exact Hreg|]. split; [exact Hopen|]. split; [exact Hgone|exact Hrecv].
Defined.

(** The same on the empty hub, with the event of a confirmed order. *)
Example stale_close_scenario :
  let ev := event "confirmed" "Swap executed successfully" in
  let '(s1, st1) := Hub.connect 1000 "order_1" Hub.empty in
  let '(s2, st2) := Hub.connect 2000 "order_1" st1 in
  let st3 := Hub.close s1 st2 in
  let st4 := Hub.broadcastUpdate 3000 "order_1" ev st3 in
  Hub.isOpen st4 s2 = true /\
  Hub.msg_data <$> Hub.received st4 s2
    = [event "connected" "Waiting for order processing"].
Proof. vm_compute. split; reflexivity. Qed.

(* ===================================================================== *)
(** * The claims about submission and the store                            *)
(* ===================================================================== *)

(** ** Validation of the amount *)






(** ** What can change a stored record *)

Section KeepsRows.

Context {A B : Type}.

Lemma keeps_rows_ret (a : A) : keeps_rows (ret a).
Proof. intros w r w' [= <- <-] id row H. exact H. Qed.

Lemma keeps_rows_bind (m : M A) (k : A -> M B) :
  keeps_rows m -> (forall a, keeps_rows (k a)) -> keeps_rows (bind m k).
Proof.
  intros Hm Hk w r w' H id row Hrow. unfold bind in H.
  destruct (m w) as [[a|e] w1] eqn:E.
  - eapply Hk; [exact H|]. eapply Hm; [exact E|exact Hrow].
  - injection H as <- <-. eapply Hm; [exact E|exact Hrow].
Qed.

Lemma keeps_rows_try_catch (body : M A) (handler : string -> M A) :
  keeps_rows body -> (forall e, keeps_rows (handler e)) ->
  keeps_rows (try_catch body handler).
Proof.
  intros Hb Hh w r w' H id row Hrow. unfold try_catch in H.
  destruct (body w) as [[a|e] w1] eqn:E.
  - injection H as <- <-. eapply Hb; [exact E|exact Hrow].
  - eapply Hh; [exact H|]. eapply Hb; [exact E|exact Hrow].
Qed.

End KeepsRows.

Lemma keeps_rows_Date_now : keeps_rows Date_now.
Proof. intros w r w' [= <- <-] id row H. exact H. Qed.

Lemma keeps_rows_Math_random : keeps_rows Math_random.
Proof. intros w r w' [= <- <-] id row H. exact H. Qed.

Lemma keeps_rows_Number_toString36 x : keeps_rows (Number_toString36 x).
Proof. intros w r w' [= <- <-] id row H. exact H. Qed.

Lemma keeps_rows_external : keeps_rows external.
Proof.
  intros w r w' H id row Hrow. unfold external in H.
  destruct (fault (oracle w) (calls w)); injection H as <- <-; exact Hrow.
Qed.

(** [INSERT] adds a row only under an identifier that has none. *)
Lemma keeps_rows_create order : keeps_rows (db_orders_create order).
Proof.
  unfold db_orders_create. apply keeps_rows_bind; [apply keeps_rows_external|].
  intros _ w r w' H id row Hrow.
  destruct (store w !! o_id order) as [old|] eqn:E; injection H as <- <-.
  - exact Hrow.
  - cbn [store set_store]. rewrite lookup_insert_ne; [exact Hrow|].
    intros <-. congruence.
Qed.

Lemma keeps_rows_queue_add name data : keeps_rows (orderQueue_add name data).
Proof.
  unfold orderQueue_add. apply keeps_rows_bind; [apply keeps_rows_external|].
  intros _ w r w' [= <- <-] id row Hrow. exact Hrow.
Qed.

(** A submission never touches an existing row. *)
Lemma postExecute_keeps_rows body : keeps_rows (Routes.postExecute body).
Proof.
  unfold Routes.postExecute. apply keeps_rows_try_catch.
  - destruct (Routes.validate body) as [reply|[[[tokenIn tokenOut] x] slippage]].
    + apply keeps_rows_ret.
    + apply keeps_rows_bind; [apply keeps_rows_Date_now|intros now].
      apply keeps_rows_bind; [apply keeps_rows_Math_random|intros r].
      apply keeps_rows_bind; [apply keeps_rows_Number_toString36|intros suffix].
      apply keeps_rows_bind; [apply keeps_rows_Date_now|intros now'].
      apply keeps_rows_bind; [apply keeps_rows_create|intros _].
      apply keeps_rows_bind; [apply keeps_rows_queue_add|intros _].
      apply keeps_rows_ret.
  - intros e. apply keeps_rows_ret.
Qed.

(** C6 (amended). The record of an order, terminal or not, is changed by
    nothing but an update for its own identifier: a worker run for another
    order and a submission leave it as it is.  An update for its own
    identifier keeps each field it does not carry and overwrites each field
    it carries, whatever the stored status: the last write wins. *)
Theorem record_changes_only_by_own_updates (id : string) (row : OrderRow) :
  (forall job w r w',
      o_id (job_data job) <> id ->
      store w !! id = Some row ->
      (OrderWorker.orderWorker job w = (r, w') -> store w' !! id = Some row) /\
      (ProcessOrder.processOrder job w = (r, w') -> store w' !! id = Some row))
  /\
  (forall body w r w',
      store w !! id = Some row ->
      Routes.postExecute body w = (r, w') -> store w' !! id = Some row)
  /\
  (forall t u now,
      t !! id = Some row ->
      exists row',
        Db.update id u now t !! id = Some row' /\
        row_status row' = default (row_status row) (u_status u) /\
        row_selected_dex row' =
          from_option Some (row_selected_dex row) (u_selectedDex u) /\
        row_tx_hash row' = from_option Some (row_tx_hash row) (u_txHash u) /\
        row_executed_price row' =
          from_option Some (row_executed_price row) (u_executedPrice u) /\
        row_error row' = from_option Some (row_error row) (u_error u)).
Proof.
  split; [|split].
  - intros job w r w' Hne Hrow. split; intros H.
    + rewrite (orderWorker_other_rows _ _ _ _ _ H Hne). exact Hrow.
    + rewrite (processOrder_other_rows _ _ _ _ _ H Hne). exact Hrow.
  - intros body w r w' Hrow H.
    exact (postExecute_keeps_rows body w r w' H id row Hrow).
  - intros t u now Hrow. rewrite update_lookup_eq, Hrow. cbn.
    eexists. split; [reflexivity|].
    destruct u as [[s|] [d|] [h|] [p|] [e|]]; repeat split.
Qed.

Lemma record_changes_only_by_own_updates_witness :
  let row := Db.new_row Scenario.order1 Scenario.t0 in
  let w := Scenario.worldWith Scenario.noFailure Scenario.submitted in
  let body := Routes.mkRequest (Some "SOL") (Some "USDC")
                (Routes.JsNumber (of_Z 10)) Routes.JsUndefined in
  store (snd (Routes.postExecute body w)) !! "order_1" = Some row.
Proof.
  intros row w body.
  apply (proj1 (proj2 (record_changes_only_by_own_updates "order_1" row))
           body w (fst (Routes.postExecute body w))).
  - vm_compute. reflexivity.
  - vm_compute. reflexivity.
Defined.

(** The claim as stated fails: [order_1] is completed and its job is
    delivered a second time.  The second run rewrites the execution
    reference of the completed row; its first write puts the row back to
    [processing], and when its final write is rejected the terminal status
    stays overwritten. *)
Lemma redelivery_overwrites_terminal_status :
  let w0 := Scenario.worldWith (Scenario.failAt 3) Scenario.submitted in
  let w1 := snd (ProcessOrder.processOrder (Scenario.job1 0) w0) in
  let w2 := snd (ProcessOrder.processOrder (Scenario.job1 0) w1) in
  let v0 := Scenario.worldWith Scenario.noFailure Scenario.submitted in
  let v1 := snd (ProcessOrder.processOrder (Scenario.job1 0) v0) in
  let v2 := snd (ProcessOrder.processOrder (Scenario.job1 0) v1) in
  (row_tx_hash <$> store v1 !! "order_1" = Some (Some "tx_1700000004400_") /\
   row_tx_hash <$> store v2 !! "order_1" = Some (Some "tx_1700000009800_")) /\
  row_status <$> store w1 !! "order_1" = Some "completed" /\
  row_status <$> store w2 !! "order_1" = Some "processing" /\
  ~ (forall r w',
       ProcessOrder.processOrder (Scenario.job1 0) w1 = (r, w') ->
       row_status <$> store w' !! "order_1" = row_status <$> store w1 !! "order_1").
Proof.
  intros w0 w1 w2 v0 v1 v2.
  assert (H1 : row_status <$> store w1 !! "order_1" = Some "completed")
    by (vm_compute; reflexivity).
  assert (H2 : row_status <$> store w2 !! "order_1" = Some "processing")
    by (vm_compute; reflexivity).
  split; [split; vm_compute; reflexivity|].
  split; [exact H1|]. split; [exact H2|].
  intros claim.
  specialize (claim (fst (ProcessOrder.processOrder (Scenario.job1 0) w1)) w2
                    ltac:(subst w2; apply surjective_pairing)).
  rewrite H1, H2 in claim. discriminate claim.
Qed.
(* ===================================================================== *)
(** * Further properties of the code                                       *)
(* ===================================================================== *)

(** ** The store and the workers, whatever the outcome *)

#[local] Transparent Db.update.

Lemma update_missing t orderId u now :
  t !! orderId = None -> Db.update orderId u now t = t.
Proof. intros H. unfold Db.update. rewrite H. reflexivity. Qed.

Lemma update_update t orderId u1 u2 now1 now2 :
  Db.update orderId u2 now2 (Db.update orderId u1 now1 t)
  = Db.update orderId (mergeUpdates u1 u2) now2 t.
Proof.
  unfold Db.update. destruct (t !! orderId) as [r|] eqn:E.
  - rewrite lookup_insert_eq, insert_insert_eq. f_equal.
    destruct u1 as [[?|] [?|] [?|] [?|] [?|]], u2 as [[?|] [?|] [?|] [?|] [?|]];
      reflexivity.
  - rewrite E. reflexivity.
Qed.

(** X1. Two updates of one order, one after the other, leave the table as
    the single update does that carries, field by field, the later value
    given (a field the second update leaves out keeps the value of the
    first), stamped with the time of the second. *)
Theorem update_twice_is_merged_update
        (t : gmap string OrderRow) (orderId : string) (u1 u2 : Updates)
        (now1 now2 : Time) :
  Db.update orderId u2 now2 (Db.update orderId u1 now1 t)
  = Db.update orderId (mergeUpdates u1 u2) now2 t.
Proof.
  unfold Db.update. destruct (t !! orderId) as [r|] eqn:E.
  - rewrite lookup_insert_eq, insert_insert_eq. f_equal.
    unfold Db.set_row, mergeUpdates. cbn.
    destruct (u_status u2), (u_selectedDex u2), (u_txHash u2),
      (u_executedPrice u2), (u_error u2); reflexivity.
  - rewrite E. reflexivity.
Qed.

Lemma broadcastUpdate_registry now orderId data st :
  Hub.activeConnections (Hub.broadcastUpdate now orderId data st)
  = Hub.activeConnections st.
Proof.
  destruct (Hub.activeConnections st !! orderId) as [socket|] eqn:E.
  - destruct (Hub.isOpen st socket) eqn:Ho.
    + rewrite (broadcastUpdate_targeted _ _ _ _ _ E Ho). reflexivity.
    + rewrite broadcastUpdate_fallback by (intros s; rewrite E; congruence).
      destruct (Hub.wss st); [apply fanOut_facts|reflexivity].
  - rewrite broadcastUpdate_fallback by (intros s; rewrite E; congruence).
    destruct (Hub.wss st); [apply fanOut_facts|reflexivity].
Qed.

#[local] Opaque Hub.broadcastUpdate Db.update.

Ltac own_effects :=
  unfold ownEffects; world_simpl;
  rewrite ?broadcastUpdate_registry, ?update_update;
  split; [reflexivity|]; split; [reflexivity|]; split; [reflexivity|];
  split; [eexists; split; [first [reflexivity | symmetry; apply app_nil_r]
                          |repeat constructor]|];
  split; [eexists; split; [first [reflexivity | symmetry; apply app_nil_r]
                          |repeat constructor]|];
  first [left; reflexivity | right; eexists _, _; reflexivity].

Lemma orderWorker_effects job w r w' :
  OrderWorker.orderWorker job w = (r, w') ->
  ownEffects (o_id (job_data job)) w w' /\
  match r with
  | Ok res => r_orderId res = o_id (job_data job) /\ r_status res = None
  | Throw _ => is_Some (fault (oracle w) (calls w))
  end.
Proof.
  intros H. run_worker H; finish_run H; (split; [own_effects|]);
    first [split; reflexivity | eexists; reflexivity | eexists; eassumption].
Qed.

Lemma processOrder_effects job w r w' :
  ProcessOrder.processOrder job w = (r, w') ->
  ownEffects (o_id (job_data job)) w w' /\
  match r with
  | Ok res => r_orderId res = o_id (job_data job) /\
              r_status res = Some "completed"
  | Throw _ => is_Some (fault (oracle w) (calls w)) \/
               is_Some (fault (oracle w) (S (calls w)))
  end.
Proof.
  intros H. run_worker H; finish_run H; (split; [own_effects|]);
    first [split; reflexivity
          | left; eexists; reflexivity
          | right; eexists; reflexivity
          | left; eexists; eassumption
          | right; eexists; eassumption].
Qed.

(** X10. A successful attempt broadcasts exactly five events, all for the
    order of the job, in the order of the lifecycle: [pending], [routing],
    [building], [submitted], [confirmed] in the first revision, and
    [processing], [routing], [building], [submitted], [completed] in
    [processOrder]. *)
Theorem successful_run_broadcasts_lifecycle
        (job : Job) (w w' : World) (res : JobResult) :
  (OrderWorker.orderWorker job w = (Ok res, w') ->
   exists evs,
     published w' = published w ++ evs /\
     fst <$> evs = replicate 5 (o_id (job_data job)) /\
     (ev_status ∘ snd) <$> evs =
       ["pending"; "routing"; "building"; "submitted"; "confirmed"])
  /\
  (ProcessOrder.processOrder job w = (Ok res, w') ->
   exists evs,
     published w' = published w ++ evs /\
     fst <$> evs = replicate 5 (o_id (job_data job)) /\
     (ev_status ∘ snd) <$> evs =
       ["processing"; "routing"; "building"; "submitted"; "completed"]).
Proof.
  split; intros H; run_worker H; finish_run H;
    eexists; (split; [reflexivity|]); split; reflexivity.
Qed.

Lemma sameOrder_refl r : sameOrder r r.
Proof. repeat split. Qed.

Lemma update_sameOrder t orderId u now id row :
  t !! id = Some row ->
  exists row', Db.update orderId u now t !! id = Some row' /\ sameOrder row row'.
Proof.
  intros H. destruct (decide (orderId = id)) as [->|Hne].
  - rewrite update_lookup_eq, H. eexists. split; [reflexivity|]. repeat split.
  - rewrite update_lookup_ne by exact Hne. eauto using sameOrder_refl.
Qed.

Lemma ownEffects_sameOrder orderId w w' id row :
  ownEffects orderId w w' -> store w !! id = Some row ->
  exists row', store w' !! id = Some row' /\ sameOrder row row'.
Proof.
  intros (_ & _ & _ & _ & _ & [->|(u & now & ->)]) H.
  - eauto using sameOrder_refl.
  - apply update_sameOrder. exact H.
Qed.

(** X11. Whatever its outcome, an attempt of either revision adds no job
    to the queue, leaves the subscriber registry as it is, broadcasts and
    writes only under the identifier of its own order, and leaves the rows
    of all other identifiers untouched. *)
Theorem worker_run_stays_within_its_order
        (job : Job) (w w' : World) (r : Result JobResult) :
  OrderWorker.orderWorker job w = (r, w') \/
  ProcessOrder.processOrder job w = (r, w') ->
  queue w' = queue w /\
  Hub.activeConnections (hub w') = Hub.activeConnections (hub w) /\
  (exists evs, published w' = published w ++ evs /\
               Forall (fun p => p.1 = o_id (job_data job)) evs) /\
  (exists us, dbLog w' = dbLog w ++ us /\
              Forall (fun p => p.1 = o_id (job_data job)) us) /\
  forall other, other <> o_id (job_data job) ->
                store w' !! other = store w !! other.
Proof.
  intros H.
  assert (E : ownEffects (o_id (job_data job)) w w')
    by (destruct H as [H|H];
        [exact (proj1 (orderWorker_effects _ _ _ _ H))
        |exact (proj1 (processOrder_effects _ _ _ _ H))]).
  destruct E as (_ & Hq & Hreg & Hev & Hlog & Hst).
  split; [exact Hq|]. split; [exact Hreg|]. split; [exact Hev|]. split; [exact Hlog|].
  intros other Hne. destruct Hst as [->|(u & now & ->)]; [reflexivity|].
  apply update_lookup_ne. congruence.
Qed.

Lemma worker_run_stays_within_its_order_witness :
  let job := Scenario.job1 0 in
  let w := Scenario.worldWith Scenario.noFailure Scenario.submitted in
  let w' := snd (ProcessOrder.processOrder job w) in
  queue w' = queue w /\
  Hub.activeConnections (hub w') = Hub.activeConnections (hub w) /\
  (exists evs, published w' = published w ++ evs /\
               Forall (fun p => p.1 = o_id (job_data job)) evs) /\
  (exists us, dbLog w' = dbLog w ++ us /\
              Forall (fun p => p.1 = o_id (job_data job)) us) /\
  forall other, other <> o_id (job_data job) ->
                store w' !! other = store w !! other.
Proof.
  intros job w w'.
  apply (worker_run_stays_within_its_order job w w'
           (fst (ProcessOrder.processOrder job w))).
  right. apply surjective_pairing.
Defined.

(** X13. An attempt for an identifier that has no row runs like any
    other: while the store answers its calls the attempt succeeds and
    broadcasts the final status, although the updates matched no row and
    the table is as before. *)
Theorem run_for_unknown_order_persists_nothing (job : Job) (w : World) :
  store w !! o_id (job_data job) = None ->
  fault (oracle w) (calls w) = None ->
  (exists res w',
     OrderWorker.orderWorker job w = (Ok res, w') /\
     store w' = store w /\
     r_orderId res = o_id (job_data job) /\
     (ev_status ∘ snd) <$> last (published w') = Some "confirmed")
  /\
  (fault (oracle w) (S (calls w)) = None ->
   exists res w',
     ProcessOrder.processOrder job w = (Ok res, w') /\
     store w' = store w /\
     r_status res = Some "completed" /\
     (ev_status ∘ snd) <$> last (published w') = Some "completed").
Proof.
  intros Hnone F0. split.
  - destruct (OrderWorker.orderWorker job w) as [[res|e] w'] eqn:H.
    + exists res, w'. split; [reflexivity|].
      destruct (orderWorker_success _ _ _ _ H)
        as (rq & mq & earlier & _ & _ & _ & _ & _ & _ & Hst & Hpub).
      split; [rewrite Hst; apply update_missing, Hnone|].
      split; [apply (orderWorker_effects _ _ _ _ H)|].
      rewrite (last_of_published _ _ _ _ Hpub). reflexivity.
    + exfalso. destruct (proj2 (orderWorker_effects _ _ _ _ H)) as [x Hx].
      congruence.
  - intros F1.
    destruct (ProcessOrder.processOrder job w) as [[res|e] w'] eqn:H.
    + exists res, w'. split; [reflexivity|].
      destruct (processOrder_success _ _ _ _ H)
        as (rq & mq & earlier & began & now & _ & _ & _ & _ & _ & _ & Hst & Hpub).
      split; [rewrite Hst, update_update; apply update_missing, Hnone|].
      split; [apply (processOrder_effects _ _ _ _ H)|].
      rewrite (last_of_published _ _ _ _ Hpub). reflexivity.
    + exfalso.
      destruct (proj2 (processOrder_effects _ _ _ _ H)) as [[x Hx]|[x Hx]];
        congruence.
Qed.

Lemma run_for_unknown_order_persists_nothing_witness :
  let job := Scenario.job1 0 in
  let w := Scenario.worldWith Scenario.noFailure ∅ in
  exists res w',
    OrderWorker.orderWorker job w = (Ok res, w') /\
    store w' = store w /\
    r_orderId res = o_id (job_data job) /\
    (ev_status ∘ snd) <$> last (published w') = Some "confirmed".
Proof.
  intros job w.
  apply (run_for_unknown_order_persists_nothing job w); reflexivity.
Defined.

(** ** The endpoints *)

Lemma validate_inl_reject body r :
  Routes.validate body = inl r -> exists error code, r = Routes.reject error code.
Proof.
  unfold Routes.validate.
  destruct (Routes.missing (Routes.tokenIn body)); [intros [= <-]; eauto|].
  destruct (Routes.missing (Routes.tokenOut body)); [intros [= <-]; eauto|].
  destruct (Routes.amount body) as [| | |y| |]; try (intros [= <-]; eauto).
  destruct (le y (of_Z 0)); [intros [= <-]; eauto|].
  destruct (Routes.slippage body) as [| | |x| |]; try (intros [= <-]; eauto).
  - destruct (negb _); [intros [= <-]; eauto|].
    destruct (negb _); [intros [= <-]; eauto|].
    destruct (String.eqb _ _); [intros [= <-]; eauto|discriminate].
  - destruct (lt x (of_Z 0) || gt x (of_Z 1)); [intros [= <-]; eauto|].
    destruct (negb _); [intros [= <-]; eauto|].
    destruct (negb _); [intros [= <-]; eauto|].
    destruct (String.eqb _ _); [intros [= <-]; eauto|discriminate].
Qed.

(** The run of the handler on a body that passes validation. *)
Lemma postExecute_valid body w tokenIn tokenOut amount slippage :
  Routes.validate body = inr (tokenIn, tokenOut, amount, slippage) ->
  let orderId := generatedOrderId w in
  let order := submittedOrder w tokenIn tokenOut amount slippage in
  Routes.postExecute body w =
  let w0 := set_calls (S (calls w)) (set_randoms (S (randoms w)) w) in
  match fault (oracle w) (calls w) with
  | Some _ => (Ok internalError, w0)
  | None =>
      match store w !! orderId with
      | Some _ => (Ok internalError, w0)
      | None =>
          let w1 := set_calls (S (S (calls w)))
                      (set_store (<[orderId := Db.new_row order (clock w)]> (store w))
                                 w0) in
          match fault (oracle w) (S (calls w)) with
          | Some _ => (Ok internalError, w1)
          | None =>
              (Ok (Routes.mkReply 202 None None (Some orderId)),
               set_queue (queue w ++ [mkJob orderId order 0 (Some 3%nat)]) w1)
          end
      end
  end.
Proof.
  intros Hv. cbv zeta. unfold Routes.postExecute. rewrite Hv.
  unfold generatedOrderId, submittedOrder.
  destruct w as [o c r k t h q l p qs].
  cbv beta iota zeta delta
      [try_catch bind Date_now Math_random Number_toString36
       db_orders_create orderQueue_add external ret
       set_randoms set_calls set_store set_queue
       oracle clock randoms calls store hub queue dbLog published quoted o_id].
  destruct (fault o k); [reflexivity|].
  destruct (t !! _); [reflexivity|].
  destruct (fault o (S k)); reflexivity.
Qed.

(** X: accepted submission *)
(** X2. A submission answered with 202 passed validation.  The reply
    carries the generated identifier, which no row had; the table gains the
    row of that order, in status [pending]; the queue gains one job for it,
    not yet attempted, with three attempts allowed; the hub and the
    histories are untouched. *)
Theorem accepted_submission_is_stored_and_queued
        (body : Routes.OrderRequest) (w w' : World) (reply : Routes.Reply) :
  Routes.postExecute body w = (Ok reply, w') ->
  Routes.statusCode reply = 202%nat ->
  exists tokenIn tokenOut amount slippage,
    let orderId := generatedOrderId w in
    let order := submittedOrder w tokenIn tokenOut amount slippage in
    Routes.validate body = inr (tokenIn, tokenOut, amount, slippage) /\
    reply = Routes.mkReply 202 None None (Some orderId) /\
    store w !! orderId = None /\
    store w' = <[orderId := Db.new_row order (clock w)]> (store w) /\
    queue w' = queue w ++ [mkJob orderId order 0 (Some 3%nat)] /\
    hub w' = hub w /\ published w' = published w /\ dbLog w' = dbLog w.
Proof.
  intros H Hcode.
  destruct (Routes.validate body)
    as [r|[[[tokenIn tokenOut] amount] slippage]] eqn:Hv.
  - exfalso. unfold Routes.postExecute, try_catch in H. rewrite Hv in H.
    injection H as <- <-. destruct (validate_inl_reject _ _ Hv) as (e & c & ->).
    discriminate Hcode.
  - exists tokenIn, tokenOut, amount, slippage. cbv zeta.
    rewrite (postExecute_valid _ w _ _ _ _ Hv) in H. cbv zeta in H.
    split; [reflexivity|].
    destruct (fault (oracle w) (calls w)); [injection H as <- <-; discriminate Hcode|].
    destruct (store w !! generatedOrderId w) eqn:E;
      [injection H as <- <-; discriminate Hcode|].
    destruct (fault (oracle w) (S (calls w)));
      [injection H as <- <-; discriminate Hcode|].
    injection H as <- <-. repeat split.
Qed.

Lemma accepted_submission_is_stored_and_queued_witness :
  let w := Scenario.worldWith Scenario.noFailure ∅ in
  let w' := snd (Routes.postExecute request1 w) in
  exists tokenIn tokenOut amount slippage,
    let orderId := generatedOrderId w in
    let order := submittedOrder w tokenIn tokenOut amount slippage in
    Routes.validate request1 = inr (tokenIn, tokenOut, amount, slippage) /\
    Routes.mkReply 202 None None (Some "order_1700000000000_")
      = Routes.mkReply 202 None None (Some orderId) /\
    store w !! orderId = None /\
    store w' = <[orderId := Db.new_row order (clock w)]> (store w) /\
    queue w' = queue w ++ [mkJob orderId order 0 (Some 3%nat)] /\
    hub w' = hub w /\ published w' = published w /\ dbLog w' = dbLog w.
Proof.
  intros w w'.
  apply (accepted_submission_is_stored_and_queued request1 w w').
  - vm_compute. reflexivity.
  - reflexivity.
Defined.

(** X3. The submission endpoint always replies and never throws.  The
    reply is a 400 when validation turns the body down, and then the world
    is as before; or a 202 with the generated identifier and one more job
    in the queue; or the 500 body, and then nothing was queued. *)
Theorem submission_always_answers (body : Routes.OrderRequest) (w : World) :
  exists reply w',
    Routes.postExecute body w = (Ok reply, w') /\
    (Routes.statusCode reply = 400%nat /\ Routes.validate body = inl reply /\ w' = w
     \/
     Routes.statusCode reply = 202%nat /\
     Routes.reply_orderId reply = Some (generatedOrderId w) /\
     length (queue w') = S (length (queue w))
     \/
     reply = internalError /\ queue w' = queue w).
Proof.
  destruct (Routes.validate body) as [r|[[[tokenIn tokenOut] amount] slippage]] eqn:Hv.
  - exists r, w. split.
    + unfold Routes.postExecute, try_catch. rewrite Hv. reflexivity.
    + left. destruct (validate_inl_reject _ _ Hv) as (e & c & ->). auto.
  - rewrite (postExecute_valid _ w _ _ _ _ Hv). cbv zeta.
    destruct (fault (oracle w) (calls w));
      [eexists _, _; split; [reflexivity|right; right; split; reflexivity]|].
    destruct (store w !! generatedOrderId w);
      [eexists _, _; split; [reflexivity|right; right; split; reflexivity]|].
    destruct (fault (oracle w) (S (calls w))); eexists _, _; (split; [reflexivity|]).
    + right; right; split; reflexivity.
    + right; left. cbn. rewrite length_app. cbn. repeat split. lia.
Qed.

(** X4. When the store turns the insert away, because the call fails or
    because the generated identifier is already taken, a valid submission
    is answered with the 500 body, and table and queue are as before. *)
Theorem rejected_insert_stores_nothing
        (body : Routes.OrderRequest) (w : World)
        (tokenIn tokenOut : string) (amount slippage : number) :
  Routes.validate body = inr (tokenIn, tokenOut, amount, slippage) ->
  is_Some (fault (oracle w) (calls w)) \/
  is_Some (store w !! generatedOrderId w) ->
  exists w',
    Routes.postExecute body w = (Ok internalError, w') /\
    store w' = store w /\ queue w' = queue w.
Proof.
  intros Hv Hrej. rewrite (postExecute_valid _ w _ _ _ _ Hv). cbv zeta.
  destruct (fault (oracle w) (calls w)) eqn:F.
  - eexists. split; [reflexivity|split; reflexivity].
  - destruct Hrej as [[x Hx]|[old Hold]]; [discriminate|].
    rewrite Hold. eexists. split; [reflexivity|split; reflexivity].
Qed.

Lemma rejected_insert_stores_nothing_witness :
  let w := snd (Routes.postExecute request1
                  (Scenario.worldWith Scenario.noFailure ∅)) in
  exists w',
    Routes.postExecute request1 w = (Ok internalError, w') /\
    store w' = store w /\ queue w' = queue w.
Proof.
  intros w.
  apply (rejected_insert_stores_nothing request1 w "SOL" "USDC"
           (of_Z 10) (decimal 5 2)).
  - vm_compute. reflexivity.
  - right. vm_compute. eexists. reflexivity.
Defined.

(** X5. When the store accepts the insert and the queue then rejects the
    job, a valid submission is answered with the 500 body although its row
    is in the table, in status [pending], and no job for it is queued. *)
Theorem rejected_enqueue_leaves_pending_row
        (body : Routes.OrderRequest) (w : World)
        (tokenIn tokenOut : string) (amount slippage : number) :
  Routes.validate body = inr (tokenIn, tokenOut, amount, slippage) ->
  fault (oracle w) (calls w) = None ->
  store w !! generatedOrderId w = None ->
  is_Some (fault (oracle w) (S (calls w))) ->
  exists w' row,
    Routes.postExecute body w = (Ok internalError, w') /\
    store w' !! generatedOrderId w = Some row /\
    row_status row = "pending" /\
    queue w' = queue w.
Proof.
  intros Hv F0 E [e F1]. rewrite (postExecute_valid _ w _ _ _ _ Hv). cbv zeta.
  rewrite F0, E, F1. eexists _, _. split; [reflexivity|].
  cbn [store set_calls set_store set_randoms]. rewrite lookup_insert_eq.
  split; [reflexivity|split; reflexivity].
Qed.

Lemma rejected_enqueue_leaves_pending_row_witness :
  let w := Scenario.worldWith (Scenario.failAt 1) ∅ in
  exists w' row,
    Routes.postExecute request1 w = (Ok internalError, w') /\
    store w' !! generatedOrderId w = Some row /\
    row_status row = "pending" /\
    queue w' = queue w.
Proof.
  intros w.
  apply (rejected_enqueue_leaves_pending_row request1 w "SOL" "USDC"
           (of_Z 10) (decimal 5 2)).
  - vm_compute. reflexivity.
  - reflexivity.
  - vm_compute. reflexivity.
  - vm_compute. eexists. reflexivity.
Defined.


#[local] Transparent JsNumber.of_Z JsNumber.decimal JsNumber.div JsNumber.gt.




#[local] Transparent String.append.

Lemma trimsToEmpty_order_prefix rest : trimsToEmpty ("order_" +:+ rest) = false.
Proof. reflexivity. Qed.

Lemma generatedOrderId_not_blank w : trimsToEmpty (generatedOrderId w) = false.
Proof. apply trimsToEmpty_order_prefix. Qed.

#[local] Opaque String.append.

Lemma getOrder_run orderId w :
  Routes.getOrder orderId w =
  if trimsToEmpty orderId
  then (Ok (Routes.SendError 400 "INVALID_ORDER_ID" "ERR_011"), w)
  else
    match fault (oracle w) (calls w) with
    | Some _ => (Ok (Routes.SendError 500 "DATABASE_ERROR" "ERR_502"),
                 set_calls (S (calls w)) w)
    | None =>
        (Ok match store w !! orderId with
            | Some row => Routes.SendOrder row
            | None => Routes.SendError 404 "ORDER_NOT_FOUND" "ERR_404"
            end,
         set_calls (S (calls w)) w)
    end.
Proof.
  unfold Routes.getOrder. destruct (trimsToEmpty orderId); [reflexivity|].
  destruct w as [o c r k t h q l p qs].
  cbv beta iota zeta delta
      [try_catch bind db_orders_getById external ret Db.getById set_calls
       oracle clock randoms calls store hub queue dbLog published quoted].
  destruct (fault o k); [reflexivity|].
  destruct (t !! orderId); reflexivity.
Qed.

(** X7. [GET /api/orders/:orderId] always replies, never throws and never
    writes: 400 without a call to the store for an identifier that is empty
    or blank; otherwise one call to the store and then 500 when that call
    fails, 404 when no row has the identifier, and the row itself when one
    has. *)
Theorem order_lookup_answers (orderId : string) (w : World) :
  exists reply w',
    Routes.getOrder orderId w = (Ok reply, w') /\
    store w' = store w /\ queue w' = queue w /\ hub w' = hub w /\
    (trimsToEmpty orderId = true /\ w' = w /\
     reply = Routes.SendError 400 "INVALID_ORDER_ID" "ERR_011"
     \/
     trimsToEmpty orderId = false /\ calls w' = S (calls w) /\
     (is_Some (fault (oracle w) (calls w)) /\
      reply = Routes.SendError 500 "DATABASE_ERROR" "ERR_502"
      \/
      fault (oracle w) (calls w) = None /\ store w !! orderId = None /\
      reply = Routes.SendError 404 "ORDER_NOT_FOUND" "ERR_404"
      \/
      fault (oracle w) (calls w) = None /\
      exists row, store w !! orderId = Some row /\ reply = Routes.SendOrder row)).
Proof.
  rewrite getOrder_run. destruct (trimsToEmpty orderId).
  - eexists _, _. split; [reflexivity|]. repeat split. left. auto.
  - destruct (fault (oracle w) (calls w)) eqn:F.
    + eexists _, _. split; [reflexivity|]. repeat split. right. repeat split.
      left. split; [eauto|reflexivity].
    + eexists _, _. split; [reflexivity|]. repeat split. right. repeat split.
      destruct (store w !! orderId) as [row|]; [right; right|right; left]; eauto.
Qed.

Lemma validate_inr_fields body tokenIn tokenOut amount slippage :
  Routes.validate body = inr (tokenIn, tokenOut, amount, slippage) ->
  Routes.tokenIn body = Some tokenIn /\
  Routes.tokenOut body = Some tokenOut /\
  Routes.amount body = Routes.JsNumber amount.
Proof.
  unfold Routes.validate.
  destruct (Routes.missing (Routes.tokenIn body)) eqn:Mi; [discriminate|].
  destruct (Routes.missing (Routes.tokenOut body)) eqn:Mo; [discriminate|].
  destruct (Routes.tokenIn body) as [tin|]; [|discriminate Mi].
  destruct (Routes.tokenOut body) as [tout|]; [|discriminate Mo].
  destruct (Routes.amount body) as [| | |y| |]; try discriminate.
  destruct (le y (of_Z 0)); [discriminate|].
  destruct (match Routes.slippage body with
            | Routes.JsUndefined => None
            | Routes.JsNumber x0 =>
                if lt x0 (of_Z 0) || gt x0 (of_Z 1)
                then Some (Routes.reject "INVALID_SLIPPAGE_RANGE" "ERR_007")
                else None
            | _ => Some (Routes.reject "INVALID_SLIPPAGE_TYPE" "ERR_006")
            end); [discriminate|].
  cbn [default].
  destruct (negb _); [discriminate|].
  destruct (negb _); [discriminate|].
  destruct (String.eqb _ _); [discriminate|].
  intros [= <- <- <- _]. auto.
Qed.

(** X8. The identifier a submission replies with can be looked up: while
    the store answers, [GET /api/orders/:orderId] returns the row of that
    identifier, with the tokens and the amount of the request, in status
    [pending], with no venue, hash, price or error yet. *)
Theorem submitted_order_can_be_fetched
        (body : Routes.OrderRequest) (w w1 : World) (reply : Routes.Reply)
        (orderId : string) :
  Routes.postExecute body w = (Ok reply, w1) ->
  Routes.reply_orderId reply = Some orderId ->
  fault (oracle w1) (calls w1) = None ->
  exists row w2,
    Routes.getOrder orderId w1 = (Ok (Routes.SendOrder row), w2) /\
    row_id row = orderId /\
    Routes.tokenIn body = Some (row_token_in row) /\
    Routes.tokenOut body = Some (row_token_out row) /\
    Routes.amount body = Routes.JsNumber (row_amount row) /\
    row_status row = "pending" /\
    row_selected_dex row = None /\ row_tx_hash row = None /\
    row_executed_price row = None /\ row_error row = None /\
    row_created_at row = clock w.
Proof.
  intros H Hid F.
  destruct (Routes.validate body) as [r|[[[tokenIn tokenOut] amount] slippage]] eqn:Hv.
  - exfalso. unfold Routes.postExecute, try_catch in H. rewrite Hv in H.
    injection H as <- <-. destruct (validate_inl_reject _ _ Hv) as (e & c & ->).
    discriminate Hid.
  - destruct (validate_inr_fields _ _ _ _ _ Hv) as (Hin & Hout & Ham).
    rewrite (postExecute_valid _ w _ _ _ _ Hv) in H. cbv zeta in H.
    destruct (fault (oracle w) (calls w)); [injection H as <- <-; discriminate Hid|].
    destruct (store w !! generatedOrderId w) eqn:E;
      [injection H as <- <-; discriminate Hid|].
    destruct (fault (oracle w) (S (calls w)));
      [injection H as <- <-; discriminate Hid|].
    injection H as <- <-. injection Hid as <-.
    rewrite getOrder_run, generatedOrderId_not_blank, F.
    cbn [store set_queue set_calls set_store set_randoms].
    rewrite lookup_insert_eq. eexists _, _. split; [reflexivity|].
    repeat split; assumption.
Qed.

Lemma submitted_order_can_be_fetched_witness :
  let w := Scenario.worldWith Scenario.noFailure ∅ in
  let w1 := snd (Routes.postExecute request1 w) in
  exists row w2,
    Routes.getOrder "order_1700000000000_" w1 = (Ok (Routes.SendOrder row), w2) /\
    row_id row = "order_1700000000000_" /\
    Routes.tokenIn request1 = Some (row_token_in row) /\
    Routes.tokenOut request1 = Some (row_token_out row) /\
    Routes.amount request1 = Routes.JsNumber (row_amount row) /\
    row_status row = "pending" /\
    row_selected_dex row = None /\ row_tx_hash row = None /\
    row_executed_price row = None /\ row_error row = None /\
    row_created_at row = clock w.
Proof.
  intros w w1.
  apply (submitted_order_can_be_fetched request1 w w1
           (Routes.mkReply 202 None None (Some "order_1700000000000_"))).
  - vm_compute. reflexivity.
  - reflexivity.
  - reflexivity.
Defined.


#[local] Instance newerFirst_total : Total Db.newerFirst.
Proof. intros a b. unfold Db.newerFirst. lia. Qed.

#[local] Instance newerFirst_trans : Transitive Db.newerFirst.
Proof. intros a b c. unfold Db.newerFirst. lia. Qed.

Lemma getAll_facts (t : gmap string OrderRow) :
  StronglySorted Db.newerFirst (Db.getAll t) /\
  Db.getAll t ≡ₚ snd <$> map_to_list t /\
  length (Db.getAll t) = size t /\
  forall row, row ∈ Db.getAll t <-> exists id, t !! id = Some row.
Proof.
  unfold Db.getAll.
  pose proof (merge_sort_Permutation Db.newerFirst (snd <$> map_to_list t)) as P.
  split; [apply StronglySorted_merge_sort; apply _|].
  split; [exact P|]. split.
  - rewrite P, length_fmap. apply length_map_to_list.
  - intros row. rewrite P, list_elem_of_fmap. split.
    + intros ([id r] & -> & Hin). exists id. apply elem_of_map_to_list. exact Hin.
    + intros (id & Hid). exists (id, row). split; [reflexivity|].
      apply elem_of_map_to_list. exact Hid.
Qed.

Lemma listOrders_run w :
  Routes.listOrders w =
  match fault (oracle w) (calls w) with
  | Some _ => (Ok (Routes.ListError 500 "DATABASE_ERROR" "ERR_503"),
               set_calls (S (calls w)) w)
  | None =>
      (Ok (Routes.SendList (length (Db.getAll (store w))) (Db.getAll (store w))
                           (clock w)),
       set_calls (S (calls w)) w)
  end.
Proof.
  unfold Routes.listOrders.
  destruct w as [o c r k t h q l p qs].
  cbv beta iota zeta delta
      [try_catch bind db_orders_getAll external ret Date_now set_calls
       oracle clock randoms calls store hub queue dbLog published quoted].
  destruct (fault o k); reflexivity.
Qed.

(** X9. [GET /api/orders] replies with the 500 body when the store call
    fails; otherwise with every row of the table exactly once, newest
    first, and a [total] that is the number of rows. *)
Theorem order_list_holds_every_order_once (w : World) :
  exists reply,
    Routes.listOrders w = (Ok reply, set_calls (S (calls w)) w) /\
    (is_Some (fault (oracle w) (calls w)) ->
     reply = Routes.ListError 500 "DATABASE_ERROR" "ERR_503") /\
    (fault (oracle w) (calls w) = None ->
     exists orders,
       reply = Routes.SendList (length orders) orders (clock w) /\
       length orders = size (store w) /\
       orders ≡ₚ snd <$> map_to_list (store w) /\
       (forall row, row ∈ orders <-> exists id, store w !! id = Some row) /\
       StronglySorted Db.newerFirst orders).
Proof.
  rewrite listOrders_run. destruct (fault (oracle w) (calls w)) eqn:F.
  - eexists. split; [reflexivity|]. split; [reflexivity|discriminate].
  - eexists. split; [reflexivity|]. split; [intros [? ?]; discriminate|].
    intros _. destruct (getAll_facts (store w)) as (Hs & Hp & Hl & Hm).
    exists (Db.getAll (store w)). auto.
Qed.

(** X12. A row, once in the table, stays: no attempt of a worker, no
    submission and no read removes it, and none changes its identifier,
    tokens, amount, slippage or creation time. *)
Theorem order_data_is_never_rewritten (id : string) (row : OrderRow) (w : World) :
  store w !! id = Some row ->
  (forall job r w', OrderWorker.orderWorker job w = (r, w') ->
     exists row', store w' !! id = Some row' /\ sameOrder row row') /\
  (forall job r w', ProcessOrder.processOrder job w = (r, w') ->
     exists row', store w' !! id = Some row' /\ sameOrder row row') /\
  (forall body r w', Routes.postExecute body w = (r, w') ->
     store w' !! id = Some row) /\
  (forall orderId r w', Routes.getOrder orderId w = (r, w') ->
     store w' !! id = Some row) /\
  (forall r w', Routes.listOrders w = (r, w') -> store w' !! id = Some row).
Proof.
  intros Hrow. split; [|split; [|split; [|split]]].
  - intros job r w' H.
    exact (ownEffects_sameOrder _ _ _ _ _ (proj1 (orderWorker_effects _ _ _ _ H)) Hrow).
  - intros job r w' H.
    exact (ownEffects_sameOrder _ _ _ _ _ (proj1 (processOrder_effects _ _ _ _ H)) Hrow).
  - intros body r w' H. exact (postExecute_keeps_rows body w r w' H id row Hrow).
  - intros orderId r w' H. rewrite getOrder_run in H.
    destruct (trimsToEmpty orderId); [injection H as <- <-; exact Hrow|].
    destruct (fault (oracle w) (calls w)); injection H as <- <-; exact Hrow.
  - intros r w' H. rewrite listOrders_run in H.
    destruct (fault (oracle w) (calls w)); injection H as <- <-; exact Hrow.
Qed.

Lemma order_data_is_never_rewritten_witness :
  let job := Scenario.job1 0 in
  let row := Db.new_row Scenario.order1 Scenario.t0 in
  let w := Scenario.worldWith Scenario.noFailure Scenario.submitted in
  exists row',
    store (snd (ProcessOrder.processOrder job w)) !! "order_1" = Some row' /\
    sameOrder row row'.
Proof.
  intros job row w.
  apply (proj1 (proj2 (order_data_is_never_rewritten "order_1" row w
                         ltac:(vm_compute; reflexivity)))
           job (fst (ProcessOrder.processOrder job w))).
  apply surjective_pairing.
Defined.

(** ** The transaction hash *)

#[local] Transparent generateMockTxHash String.append Nat.add.

Lemma get_elem_of n : forall s c,
  String.get n s = Some c -> c ∈ String.list_ascii_of_string s.
Proof.
  induction n as [|n IH]; intros [|a s] c H; try discriminate H; cbn in *.
  - injection H as ->. left.
  - right. apply IH. exact H.
Qed.

Lemma get_in_range n : forall s,
  (n < String.length s)%nat -> is_Some (String.get n s).
Proof.
  induction n as [|n IH]; intros [|a s] H; cbn in *; try lia.
  - eauto.
  - apply IH. lia.
Qed.

(** [charAt] gives nothing or one character of the string. *)
Lemma charAt_cases s k :
  charAt s k = "" \/
  exists c, charAt s k = String c "" /\ c ∈ String.list_ascii_of_string s.
Proof.
  unfold charAt. destruct (k <? 0); [left; reflexivity|].
  destruct (String.get (Z.to_nat k) s) as [c|] eqn:E; [right|left; reflexivity].
  exists c. split; [reflexivity|]. eapply get_elem_of, E.
Qed.

Lemma charAt_floor_cases s x :
  charAt_floor s x = "" \/
  exists c, charAt_floor s x = String c "" /\ c ∈ String.list_ascii_of_string s.
Proof.
  unfold charAt_floor.
  destruct x; try apply charAt_cases;
    (destruct (floor _); [apply charAt_cases|left; reflexivity]).
Qed.

Lemma charAt_floor_in_range s x k :
  floor x = Some k -> 0 <= k < Z.of_nat (String.length s) ->
  exists c, charAt_floor s x = String c "".
Proof.
  intros Hf Hk.
  assert (Hc : exists c, charAt s k = String c "").
  { unfold charAt. destruct (k <? 0) eqn:E; [lia|].
    destruct (get_in_range (Z.to_nat k) s ltac:(lia)) as [c ->]. eauto. }
  unfold charAt_floor. destruct x; try (rewrite Hf; exact Hc).
  discriminate Hf.
Qed.

Lemma append_cons a s1 s2 : String a s1 +:+ s2 = String a (s1 +:+ s2).
Proof. reflexivity. Qed.

Lemma append_length s1 s2 :
  String.length (s1 +:+ s2) = (String.length s1 + String.length s2)%nat.
Proof.
  induction s1 as [|a s1 IH]; [reflexivity|].
  rewrite append_cons. cbn [String.length]. rewrite IH. reflexivity.
Qed.

Lemma append_list s1 s2 :
  String.list_ascii_of_string (s1 +:+ s2)
  = String.list_ascii_of_string s1 ++ String.list_ascii_of_string s2.
Proof.
  induction s1 as [|a s1 IH]; [reflexivity|].
  rewrite append_cons. cbn [String.list_ascii_of_string app]. rewrite IH. reflexivity.
Qed.

Lemma append_empty s : s +:+ "" = s.
Proof.
  induction s as [|a s IH]; [reflexivity|]. rewrite append_cons, IH. reflexivity.
Qed.

Lemma append_assoc s1 s2 s3 : (s1 +:+ s2) +:+ s3 = s1 +:+ (s2 +:+ s3).
Proof.
  induction s1 as [|a s1 IH]; [reflexivity|].
  rewrite !append_cons, IH. reflexivity.
Qed.

Lemma generateMockTxHash_loop_chars i : forall hash w,
  exists h,
    generateMockTxHash_loop i hash w =
      (Ok (hash +:+ h), set_randoms (i + randoms w)%nat w) /\
    (String.length h <= i)%nat /\
    Forall (fun c => c ∈ String.list_ascii_of_string chars)
           (String.list_ascii_of_string h) /\
    ((forall j, (j < i)%nat -> indexInRange (oracle w) (randoms w + j)) ->
     String.length h = i).
Proof.
  induction i as [|i IH]; intros hash w.
  - exists "". split; [|split; [cbn; lia|split; [constructor|reflexivity]]].
    destruct w. cbn. rewrite append_empty. reflexivity. 
  - cbn [generateMockTxHash_loop]. unfold bind, Math_random.
    set (x := mul (random (oracle w) (randoms w)) _).
    destruct (IH (hash +:+ charAt_floor chars x) (set_randoms (S (randoms w)) w))
      as (h & -> & Hlen & Hall & Hfull).
    exists (charAt_floor chars x +:+ h). split; [|split; [|split]].
    + rewrite append_assoc. unfold set_randoms; cbn. do 2 f_equal. lia.
    + rewrite append_length.
      destruct (charAt_floor_cases chars x) as [->|(c & -> & _)]; cbn; lia.
    + rewrite append_list. apply Forall_app. split; [|exact Hall].
      destruct (charAt_floor_cases chars x) as [->|(c & -> & Hc)]; cbn.
      * constructor.
      * constructor; [exact Hc|constructor].
    + intros Hr. rewrite append_length, Hfull.
      * destruct (Hr O ltac:(lia)) as (k & Hk & Hrange).
        rewrite Nat.add_0_r in Hk.
        destruct (charAt_floor_in_range chars x k Hk Hrange) as [c ->].
        reflexivity.
      * intros j Hj. cbn [oracle randoms set_randoms].
        replace (S (randoms w) + j)%nat with (randoms w + S j)%nat by lia.
        apply Hr. lia.
Qed.

(** X14. [generateMockTxHash] always returns, after 88 draws, a string of
    at most 88 characters, all of them from [chars]; the string has exactly
    88 characters when every draw, scaled and floored, is a position of
    [chars]. *)
Theorem generateMockTxHash_draws_from_alphabet (w : World) :
  exists h,
    generateMockTxHash w = (Ok h, set_randoms (88 + randoms w)%nat w) /\
    (String.length h <= 88)%nat /\
    Forall (fun c => c ∈ String.list_ascii_of_string chars)
           (String.list_ascii_of_string h) /\
    ((forall j, (j < 88)%nat -> indexInRange (oracle w) (randoms w + j)) ->
     String.length h = 88%nat).
Proof.
  destruct (generateMockTxHash_loop_chars 88 "" w) as (h & E & H).
  exists h. split; [exact E|exact H].
Qed.

Lemma generateMockTxHash_draws_from_alphabet_witness :
  let w := Scenario.worldWith Scenario.noFailure ∅ in
  exists h,
    generateMockTxHash w = (Ok h, set_randoms (88 + randoms w)%nat w) /\
    String.length h = 88%nat.
Proof.
  intros w. destruct (generateMockTxHash_draws_from_alphabet w)
    as (h & E & _ & _ & Hfull).
  exists h. split; [exact E|]. apply Hfull.
  intros j _. exists 31. split; [vm_compute; reflexivity|].
  vm_compute. split; [discriminate|reflexivity].
Defined.

(** ** The hub, after any history *)

#[local] Transparent Hub.broadcastUpdate.
#[local] Opaque String.append Nat.add.

Section HubInvariant.

Implicit Types (st : Hub.State) (m : Hub.Message).

Lemma sockets_send st s m x :
  Hub.sockets (Hub.send s m st) !! x =
  if decide (x = s)
  then (fun sock => Hub.mkSocket (Hub.readyState sock) (Hub.closeListener sock)
                                 (Hub.inbox sock ++ [m]))
         <$> Hub.sockets st !! x
  else Hub.sockets st !! x.
Proof.
  unfold Hub.send. cbn [Hub.sockets]. destruct (decide (x = s)) as [->|Hne].
  - apply lookup_alter_eq.
  - apply lookup_alter_ne. congruence.
Qed.

(** What a [send] leaves of a socket: a socket with the same listener and
    state, and an inbox that has grown by at most the message. *)
Lemma sockets_send_Some st s m x sock' :
  Hub.sockets (Hub.send s m st) !! x = Some sock' ->
  exists sock,
    Hub.sockets st !! x = Some sock /\
    Hub.closeListener sock' = Hub.closeListener sock /\
    Hub.readyState sock' = Hub.readyState sock /\
    (Hub.inbox sock' = Hub.inbox sock \/
     x = s /\ Hub.inbox sock' = Hub.inbox sock ++ [m]).
Proof.
  rewrite sockets_send. destruct (decide (x = s)) as [->|Hne].
  - destruct (Hub.sockets st !! s) as [sock|]; [|discriminate].
    intros [= <-]. exists sock. cbn. auto 10.
  - intros H. exists sock'. auto 10.
Qed.

Lemma sockets_send_keeps st s m x sock :
  Hub.sockets st !! x = Some sock ->
  exists sock',
    Hub.sockets (Hub.send s m st) !! x = Some sock' /\
    Hub.closeListener sock' = Hub.closeListener sock.
Proof.
  intros H. rewrite sockets_send, H. destruct (decide (x = s)); cbn; eauto.
Qed.

Lemma subscribedTo_send st s m x id :
  subscribedTo st x id -> subscribedTo (Hub.send s m st) x id.
Proof.
  intros (sock & H & L).
  destruct (sockets_send_keeps st s m x sock H) as (sock' & H' & L').
  exists sock'. split; [exact H'|congruence].
Qed.

Lemma hubInv_send st s m :
  hubInv st ->
  (forall id, subscribedTo st s id -> Hub.msg_orderId m = id) ->
  hubInv (Hub.send s m st).
Proof.
  intros [Hf Hr Hc Hi] Hm. split.
  - intros x [sock' H]. destruct (sockets_send_Some _ _ _ _ _ H) as (sock & E & _).
    apply Hf. eauto.
  - intros id x H. apply subscribedTo_send. apply Hr. exact H.
  - intros cs H. destruct (Hc cs H) as [Hnd Hcl]. split; [exact Hnd|].
    intros c Hin. destruct (Hcl c Hin) as (sock & E & L).
    destruct (sockets_send_keeps st s m c sock E) as (sock' & E' & L').
    exists sock'. split; [exact E'|congruence].
  - intros x sock' id H L.
    destruct (sockets_send_Some _ _ _ _ _ H) as (sock & E & L' & _ & [Hin|[-> Hin]]);
      rewrite Hin.
    + eapply Hi; [exact E|congruence].
    + apply Forall_app. split.
      * eapply Hi; [exact E|congruence].
      * constructor; [|constructor]. apply Hm. exists sock. split; [exact E|congruence].
Qed.

Lemma hubInv_fanOut m cs : forall st,
  hubInv st ->
  (forall c, c ∈ cs -> forall id, ~ subscribedTo st c id) ->
  hubInv (fanOut m cs st).
Proof.
  induction cs as [|c cs IH]; intros st Hinv Hcs; [exact Hinv|].
  rewrite fanOut_cons. apply IH.
  - destruct (Hub.isOpen st c); [|exact Hinv].
    apply hubInv_send; [exact Hinv|].
    intros id Hsub. exfalso. eapply Hcs; [left|exact Hsub].
  - intros c' Hin id Hsub. apply (Hcs c' ltac:(right; exact Hin) id).
    destruct (Hub.isOpen st c); [|exact Hsub].
    destruct Hsub as (sock' & H & L).
    destruct (sockets_send_Some _ _ _ _ _ H) as (sock & E & L' & _).
    exists sock. split; [exact E|congruence].
Qed.

Lemma hubInv_broadcastUpdate now orderId data st :
  hubInv st -> hubInv (Hub.broadcastUpdate now orderId data st).
Proof.
  intros Hinv.
  assert (Hfall : hubInv match Hub.wss st with
                         | Some clients =>
                             fanOut (Hub.envelope now orderId data) clients st
                         | None => st
                         end).
  { destruct (Hub.wss st) as [cs|] eqn:W; [|exact Hinv].
    apply hubInv_fanOut; [exact Hinv|].
    intros c Hin id (sock & E & L).
    destruct (inv_clients st Hinv cs W) as [_ Hcl].
    destruct (Hcl c Hin) as (sock0 & E0 & L0). congruence. }
  destruct (Hub.activeConnections st !! orderId) as [socket|] eqn:E.
  - destruct (Hub.isOpen st socket) eqn:Ho.
    + rewrite (broadcastUpdate_targeted _ _ _ _ _ E Ho).
      apply hubInv_send; [exact Hinv|].
      intros id (sock & Es & L).
      destruct (inv_registry st Hinv orderId socket E) as (sock0 & E0 & L0).
      cbn. congruence.
    + rewrite broadcastUpdate_fallback by (intros s; rewrite E; congruence).
      exact Hfall.
  - rewrite broadcastUpdate_fallback by (intros s; rewrite E; congruence).
    exact Hfall.
Qed.

Lemma connect_state now orderId st :
  Hub.connect now orderId st =
  (Hub.nextSocket st,
   Hub.mkState
     (<[Hub.nextSocket st :=
          Hub.mkSocket Hub.OPEN (Some orderId)
            [Hub.mkMessage orderId now
               (event "connected" "Waiting for order processing")]]>
        (Hub.sockets st))
     (S (Hub.nextSocket st))
     (<[orderId := Hub.nextSocket st]> (Hub.activeConnections st))
     (Hub.wss st)).
Proof.
  unfold Hub.connect, Hub.newSocket, Hub.websocketRoute, Hub.send.
  cbn [Hub.sockets Hub.nextSocket Hub.activeConnections Hub.wss].
  rewrite !alter_insert_eq. reflexivity.
Qed.

Lemma hubInv_newSocket_gen st listener box registry :
  hubInv st ->
  (forall id s, registry !! id = Some s ->
     Hub.activeConnections st !! id = Some s \/
     s = Hub.nextSocket st /\ listener = Some id) ->
  (forall id, listener = Some id -> Forall (fun m => Hub.msg_orderId m = id) box) ->
  hubInv (Hub.mkState
            (<[Hub.nextSocket st := Hub.mkSocket Hub.OPEN listener box]> (Hub.sockets st))
            (S (Hub.nextSocket st)) registry (Hub.wss st)).
Proof.
  intros Hinv Hreg Hbox. pose proof Hinv as [Hf Hr Hc Hi]. split;
    cbn [Hub.sockets Hub.nextSocket Hub.activeConnections Hub.wss].
  - intros x H. apply lookup_insert_is_Some in H as [<-|[_ H]]; [lia|].
    specialize (Hf x H). lia.
  - intros id s H. destruct (Hreg id s H) as [H0|[-> ->]].
    + destruct (Hr id s H0) as (sock & E & L). exists sock. split; [|exact L].
      cbn [Hub.sockets]. rewrite lookup_insert_ne; [exact E|].
      pose proof (Hf s ltac:(eauto)). lia.
    + eexists. cbn [Hub.sockets]. rewrite lookup_insert_eq. split; reflexivity.
  - intros cs H. destruct (Hc cs H) as [Hnd Hcl]. split; [exact Hnd|].
    intros c Hin. destruct (Hcl c Hin) as (sock & E & L). exists sock.
    split; [|exact L]. rewrite lookup_insert_ne; [exact E|].
    pose proof (Hf c ltac:(eauto)). lia.
  - intros x sock id H L. apply lookup_insert_Some in H as [[<- <-]|[_ H]].
    + apply Hbox. exact L.
    + eapply Hi; [exact H|exact L].
Qed.

Lemma hubInv_connect now orderId st :
  hubInv st -> hubInv (snd (Hub.connect now orderId st)).
Proof.
  intros Hinv. rewrite connect_state. cbn [snd].
  apply hubInv_newSocket_gen; [exact Hinv| |].
  - intros id s H. apply lookup_insert_Some in H as [[<- <-]|[_ H]]; auto.
  - intros id [= <-]. constructor; [reflexivity|constructor].
Qed.

Lemma hubInv_wsConnect st : hubInv st -> hubInv (snd (Hub.wsConnect st)).
Proof.
  intros Hinv. unfold Hub.wsConnect, Hub.newSocket. cbn [snd].
  apply hubInv_newSocket_gen; [exact Hinv|auto|discriminate].
Qed.

Lemma hubInv_initializeWebSocket st :
  hubInv st -> hubInv (Hub.initializeWebSocket st).
Proof.
  intros [Hf Hr Hc Hi]. split; cbn; auto.
  intros cs [= <-]. split; [constructor|]. intros c Hin. inversion Hin.
Qed.

Lemma hubInv_clearConnections st :
  hubInv st -> hubInv (Hub.clearConnections st).
Proof.
  intros [Hf Hr Hc Hi]. split; cbn; auto.
  intros id s H. rewrite lookup_empty in H. discriminate.
Qed.

Lemma hubInv_wssConnect st :
  hubInv st -> hubInv (snd (Hub.wssConnect st)).
Proof.
  intros Hinv. unfold Hub.wssConnect, Hub.newSocket. cbn [snd].
  pose proof (hubInv_newSocket_gen st None [] (Hub.activeConnections st) Hinv
                ltac:(auto) ltac:(discriminate)) as [Hf Hr Hc Hi].
  cbn [Hub.sockets Hub.nextSocket Hub.activeConnections Hub.wss] in *.
  split; cbn [Hub.sockets Hub.nextSocket Hub.activeConnections Hub.wss]; auto.
  intros cs' H. destruct (Hub.wss st) as [cs|] eqn:W; [|discriminate].
  injection H as <-. destruct (Hc cs eq_refl) as [Hnd Hcl].
  assert (Hnew : Hub.nextSocket st ∉ cs).
  { intros Hin. destruct (inv_clients st Hinv cs W) as [_ Hold].
    destruct (Hold _ Hin) as (sock & E & _).
    pose proof (inv_fresh st Hinv _ ltac:(eauto)). lia. }
  split.
  - apply NoDup_app. split; [exact Hnd|]. split; [|apply NoDup_singleton].
    intros x Hx Hx'. apply list_elem_of_singleton in Hx'. subst x. contradiction.
  - intros c Hin. apply elem_of_app in Hin as [Hin|Hin]; [apply Hcl, Hin|].
    apply list_elem_of_singleton in Hin. subst c.
    eexists. rewrite lookup_insert_eq. split; reflexivity.
Qed.

Lemma hubInv_close s st : hubInv st -> hubInv (Hub.close s st).
Proof.
  intros Hinv. pose proof Hinv as [Hf Hr Hc Hi]. unfold Hub.close.
  destruct (Hub.sockets st !! s) as [sock|] eqn:E; [|exact Hinv].
  assert (Hkeep : forall x sock0, Hub.sockets st !! x = Some sock0 ->
            exists sock', <[s := Hub.mkSocket Hub.CLOSED (Hub.closeListener sock)
                                              (Hub.inbox sock)]> (Hub.sockets st) !! x
                          = Some sock' /\
                          Hub.closeListener sock' = Hub.closeListener sock0 /\
                          Hub.inbox sock' = Hub.inbox sock0).
  { intros x sock0 H. destruct (decide (x = s)) as [->|Hne].
    - rewrite lookup_insert_eq. eexists. split; [reflexivity|].
      cbn. split; congruence.
    - rewrite lookup_insert_ne by congruence. eauto. }
  split; cbn [Hub.sockets Hub.nextSocket Hub.activeConnections Hub.wss].
  - intros x H. apply lookup_insert_is_Some in H as [<-|[_ H]]; apply Hf; eauto.
  - intros id x H.
    assert (H0 : Hub.activeConnections st !! id = Some x).
    { destruct (Hub.closeListener sock); [|exact H].
      apply lookup_delete_Some in H as [_ H]. exact H. }
    destruct (Hr id x H0) as (sock0 & E0 & L0).
    destruct (Hkeep x sock0 E0) as (sock' & E' & L' & _).
    exists sock'. cbn [Hub.sockets]. split; [exact E'|congruence].
  - intros cs' H. destruct (Hub.wss st) as [cs|] eqn:W; [|discriminate].
    injection H as <-. destruct (Hc cs eq_refl) as [Hnd Hcl]. split.
    + apply NoDup_filter. exact Hnd.
    + intros c Hin. apply list_elem_of_filter in Hin as [Hne Hin].
      destruct (Hcl c Hin) as (sock0 & E0 & L0).
      exists sock0. rewrite lookup_insert_ne by congruence. auto.
  - intros x sock' id H L. apply lookup_insert_Some in H as [[<- <-]|[_ H]].
    + cbn in *. eapply Hi; [exact E|exact L].
    + eapply Hi; [exact H|exact L].
Qed.

Lemma hubInv_beginClose s st : hubInv st -> hubInv (Hub.beginClose s st).
Proof.
  intros Hinv. pose proof Hinv as [Hf Hr Hc Hi].
  assert (Hback : forall x sock', Hub.sockets (Hub.beginClose s st) !! x = Some sock' ->
            exists sock, Hub.sockets st !! x = Some sock /\
                         Hub.closeListener sock' = Hub.closeListener sock /\
                         Hub.inbox sock' = Hub.inbox sock).
  { intros x sock'. unfold Hub.beginClose. cbn [Hub.sockets].
    destruct (decide (x = s)) as [->|Hne].
    - rewrite lookup_alter_eq. destruct (Hub.sockets st !! s) as [sock|]; [|discriminate].
      intros [= <-]. exists sock. auto.
    - rewrite lookup_alter_ne by congruence. eauto. }
  assert (Hkeep : forall x sock, Hub.sockets st !! x = Some sock ->
            exists sock', Hub.sockets (Hub.beginClose s st) !! x = Some sock' /\
                          Hub.closeListener sock' = Hub.closeListener sock).
  { intros x sock H. unfold Hub.beginClose. cbn [Hub.sockets].
    destruct (decide (x = s)) as [->|Hne].
    - rewrite lookup_alter_eq, H. cbn. eauto.
    - rewrite lookup_alter_ne by congruence. eauto. }
  split.
  - intros x [sock' H]. destruct (Hback _ _ H) as (sock & E & _). apply Hf. eauto.
  - intros id x H. destruct (Hr id x H) as (sock & E & L).
    destruct (Hkeep x sock E) as (sock' & E' & L'). exists sock'.
    split; [exact E'|congruence].
  - intros cs H. destruct (Hc cs H) as [Hnd Hcl]. split; [exact Hnd|].
    intros c Hin. destruct (Hcl c Hin) as (sock & E & L).
    destruct (Hkeep c sock E) as (sock' & E' & L'). exists sock'.
    split; [exact E'|congruence].
  - intros x sock' id H L. destruct (Hback _ _ H) as (sock & E & L' & B).
    rewrite B. eapply Hi; [exact E|congruence].
Qed.

Lemma hubInv_empty : hubInv Hub.empty.
Proof.
  split; cbn.
  - intros s [x H]. rewrite lookup_empty in H. discriminate.
  - intros id s H. rewrite lookup_empty in H. discriminate.
  - discriminate.
  - intros s sock id H. rewrite lookup_empty in H. discriminate.
Qed.

Lemma hubInv_step st op : hubInv st -> hubInv (hubStep st op).
Proof.
  intros Hinv. destruct op; cbn [hubStep].
  - apply hubInv_connect, Hinv.
  - apply hubInv_wsConnect, Hinv.
  - apply hubInv_initializeWebSocket, Hinv.
  - destruct (Hub.wss st); [apply hubInv_wssConnect, Hinv|exact Hinv].
  - destruct (Hub.isOpen st socket); [apply hubInv_beginClose, Hinv|exact Hinv].
  - destruct (Hub.sockets st !! socket) as [sock|]; [|exact Hinv].
    destruct (Nat.eqb _ _); [exact Hinv|apply hubInv_close, Hinv].
  - apply hubInv_broadcastUpdate, Hinv.
  - apply hubInv_clearConnections, Hinv.
Qed.

Lemma hubRun_snoc ops op : hubRun (ops ++ [op]) = hubStep (hubRun ops) op.
Proof. apply foldl_snoc. Qed.

Lemma hubInv_run ops : hubInv (hubRun ops).
Proof.
  induction ops as [|op ops IH] using rev_ind; [exact hubInv_empty|].
  rewrite hubRun_snoc. apply hubInv_step, IH.
Qed.

Lemma is_Some_send st s m x :
  is_Some (Hub.sockets (Hub.send s m st) !! x) <-> is_Some (Hub.sockets st !! x).
Proof.
  rewrite sockets_send. destruct (decide (x = s)); [|reflexivity].
  apply fmap_is_Some.
Qed.

Lemma is_Some_fanOut m cs : forall st x,
  is_Some (Hub.sockets (fanOut m cs st) !! x) <-> is_Some (Hub.sockets st !! x).
Proof.
  induction cs as [|c cs IH]; intros st x; [reflexivity|].
  rewrite fanOut_cons, IH. destruct (Hub.isOpen st c); [apply is_Some_send|reflexivity].
Qed.

(** Adding a fresh socket leaves the sockets there are as they were. *)
Lemma fresh_socket_step st sock' registry clients s :
  hubInv st ->
  let st' := Hub.mkState (<[Hub.nextSocket st := sock']> (Hub.sockets st))
                         (S (Hub.nextSocket st)) registry clients in
  exists ms,
    Hub.received st' s = Hub.received st s ++ ms /\
    (closedIn st s -> ms = [] /\ closedIn st' s).
Proof.
  intros Hinv st'. destruct (decide (s = Hub.nextSocket st)) as [->|Hne].
  - assert (Hnone : Hub.sockets st !! Hub.nextSocket st = None).
    { destruct (Hub.sockets st !! Hub.nextSocket st) eqn:E; [|reflexivity].
      pose proof (inv_fresh st Hinv _ ltac:(eauto)). lia. }
    exists (Hub.received st' (Hub.nextSocket st)). split.
    + unfold Hub.received at 2. rewrite Hnone. reflexivity.
    + intros [[x Hx] _]. congruence.
  - exists []. unfold closedIn, Hub.received, Hub.isOpen. subst st'.
    cbn [Hub.sockets]. rewrite lookup_insert_ne by congruence.
    rewrite app_nil_r. auto.
Qed.

Lemma hubStep_received st op s :
  hubInv st ->
  exists ms,
    Hub.received (hubStep st op) s = Hub.received st s ++ ms /\
    (closedIn st s -> ms = [] /\ closedIn (hubStep st op) s).
Proof.
  intros Hinv.
  assert (Hsame : forall st', Hub.sockets st' = Hub.sockets st ->
            exists ms, Hub.received st' s = Hub.received st s ++ ms /\
                       (closedIn st s -> ms = [] /\ closedIn st' s)).
  { intros st' E. exists []. unfold closedIn, Hub.received, Hub.isOpen.
    rewrite E, app_nil_r. auto. }
  destruct op; cbn [hubStep].
  - rewrite connect_state. cbn [snd]. apply fresh_socket_step, Hinv.
  - unfold Hub.wsConnect, Hub.newSocket. cbn [snd]. apply fresh_socket_step, Hinv.
  - apply Hsame. reflexivity.
  - destruct (Hub.wss st); [|apply Hsame; reflexivity].
    unfold Hub.wssConnect, Hub.newSocket. cbn [snd Hub.sockets Hub.nextSocket
      Hub.activeConnections Hub.wss]. apply fresh_socket_step, Hinv.
  - destruct (Hub.isOpen st socket) eqn:Ho; [|apply Hsame; reflexivity].
    exists []. unfold closedIn, Hub.received, Hub.isOpen, Hub.beginClose in *.
    cbn [Hub.sockets]. rewrite app_nil_r. destruct (decide (s = socket)) as [->|Hne].
    + rewrite lookup_alter_eq.
      destruct (Hub.sockets st !! socket) as [sock|]; [|discriminate Ho].
      cbn. split; [reflexivity|]. intros [_ Hc]. congruence.
    + rewrite lookup_alter_ne by congruence. auto.
  - destruct (Hub.sockets st !! socket) as [sock|] eqn:E; [|apply Hsame; reflexivity].
    destruct (Nat.eqb _ _); [apply Hsame; reflexivity|].
    unfold Hub.close. rewrite E.
    exists []. unfold closedIn, Hub.received, Hub.isOpen. cbn [Hub.sockets].
    rewrite app_nil_r. destruct (decide (s = socket)) as [->|Hne].
    + rewrite lookup_insert_eq, E. cbn. split; [reflexivity|]. eauto.
    + rewrite lookup_insert_ne by congruence. auto.
  - assert (Hsend : forall socket, Hub.isOpen st socket = true ->
              exists ms,
                Hub.received (Hub.send socket (Hub.envelope now orderId data) st) s
                = Hub.received st s ++ ms /\
                (closedIn st s -> ms = [] /\
                   closedIn (Hub.send socket (Hub.envelope now orderId data) st) s)).
    { intros socket Ho. rewrite received_send.
      destruct (decide (s = socket /\ is_Some (Hub.sockets st !! socket)))
        as [[-> _]|Hn].
      - eexists. split; [reflexivity|]. intros [_ Hc]. congruence.
      - exists []. rewrite app_nil_r. split; [reflexivity|].
        intros [Hs Hc]. split; [reflexivity|]. split.
        + apply is_Some_send, Hs.
        + rewrite isOpen_send. exact Hc. }
    assert (Hfall : exists ms,
              Hub.received match Hub.wss st with
                           | Some clients =>
                             fanOut (Hub.envelope now orderId data) clients st
                           | None => st
                           end s = Hub.received st s ++ ms /\
              (closedIn st s -> ms = [] /\
                 closedIn match Hub.wss st with
                          | Some clients =>
                             fanOut (Hub.envelope now orderId data) clients st
                          | None => st
                          end s)).
    { destruct (Hub.wss st) as [cs|] eqn:W; [|apply Hsame; reflexivity].
      destruct (inv_clients st Hinv cs W) as [Hnd _].
      destruct (fanOut_facts (Hub.envelope now orderId data) cs st)
        as (_ & _ & Hopen & Hrecv).
      rewrite (Hrecv Hnd s).
      destruct (decide (s ∈ cs /\ Hub.isOpen st s = true)) as [[_ Ho]|Hn].
      - eexists. split; [reflexivity|]. intros [_ Hc]. congruence.
      - exists []. rewrite app_nil_r. split; [reflexivity|].
        intros [Hs Hc]. split; [reflexivity|]. split.
        + apply is_Some_fanOut, Hs.
        + rewrite Hopen. exact Hc. }
    destruct (Hub.activeConnections st !! orderId) as [socket|] eqn:E.
    + destruct (Hub.isOpen st socket) eqn:Ho.
      * rewrite (broadcastUpdate_targeted _ _ _ _ _ E Ho). apply Hsend, Ho.
      * rewrite broadcastUpdate_fallback by (intros x; rewrite E; congruence).
        exact Hfall.
    + rewrite broadcastUpdate_fallback by (intros x; rewrite E; congruence).
      exact Hfall.
  - apply Hsame. reflexivity.
Qed.

Lemma hubRun_received ops2 : forall ops1 s,
  exists ms,
    Hub.received (hubRun (ops1 ++ ops2)) s = Hub.received (hubRun ops1) s ++ ms /\
    (closedIn (hubRun ops1) s -> ms = [] /\ closedIn (hubRun (ops1 ++ ops2)) s).
Proof.
  induction ops2 as [|op ops2 IH] using rev_ind; intros ops1 s.
  - rewrite app_nil_r. exists []. rewrite app_nil_r.
    split; [reflexivity|]. intros Hc. split; [reflexivity|exact Hc].
  - rewrite app_assoc, hubRun_snoc.
    destruct (IH ops1 s) as (ms1 & E1 & C1).
    destruct (hubStep_received (hubRun (ops1 ++ ops2)) op s (hubInv_run _))
      as (ms2 & E2 & C2).
    exists (ms1 ++ ms2). split.
    + rewrite E2, E1, app_assoc. reflexivity.
    + intros Hc. destruct (C1 Hc) as [-> Hc1]. destruct (C2 Hc1) as [-> Hc2].
      split; [reflexivity|exact Hc2].
Qed.

Lemma not_subscribedTo_send st x m s :
  (forall id, ~ subscribedTo st s id) ->
  forall id, ~ subscribedTo (Hub.send x m st) s id.
Proof.
  intros Hn id (sock' & H & L).
  destruct (sockets_send_Some _ _ _ _ _ H) as (sock & E & L' & _).
  apply (Hn id). exists sock. split; [exact E|congruence].
Qed.

Lemma not_subscribedTo_fanOut m cs : forall st s,
  (forall id, ~ subscribedTo st s id) ->
  forall id, ~ subscribedTo (fanOut m cs st) s id.
Proof.
  induction cs as [|c cs IH]; intros st s Hn; [exact Hn|].
  rewrite fanOut_cons. apply IH.
  destruct (Hub.isOpen st c); [apply not_subscribedTo_send, Hn|exact Hn].
Qed.

Lemma inert_fresh st sock' registry clients s :
  hubInv st -> inert st s ->
  (forall id, ~ subscribedTo (Hub.mkState (Hub.sockets st) (Hub.nextSocket st)
                                          registry clients) s id) ->
  (forall cs, clients = Some cs -> s ∉ cs) ->
  inert (Hub.mkState (<[Hub.nextSocket st := sock']> (Hub.sockets st))
                     (S (Hub.nextSocket st)) registry clients) s.
Proof.
  intros Hinv (Hs & Hn & Hc & Hr) Hn' Hc'.
  assert (Hne : Hub.nextSocket st <> s)
    by (pose proof (inv_fresh st Hinv s Hs); lia).
  unfold inert, subscribedTo, Hub.received in *. cbn [Hub.sockets Hub.wss] in *.
  rewrite lookup_insert_ne by exact Hne. auto.
Qed.

Lemma hubStep_inert st op s : hubInv st -> inert st s -> inert (hubStep st op) s.
Proof.
  intros Hinv Hin. pose proof Hin as (Hs & Hn & Hc & Hr).
  destruct op; cbn [hubStep].
  - rewrite connect_state. cbn [snd]. apply inert_fresh; auto.
  - unfold Hub.wsConnect, Hub.newSocket. cbn [snd]. apply inert_fresh; auto.
  - unfold inert, subscribedTo, Hub.received, Hub.initializeWebSocket in *.
    cbn [Hub.sockets Hub.wss]. repeat split; auto.
    intros cs [= <-] H. inversion H.
  - destruct (Hub.wss st) as [cs|] eqn:W; [|exact Hin].
    unfold Hub.wssConnect, Hub.newSocket.
    cbn [snd Hub.sockets Hub.nextSocket Hub.activeConnections Hub.wss].
    rewrite W. apply inert_fresh; auto.
    intros cs' [= <-] H. apply elem_of_app in H as [H|H]; [exact (Hc cs eq_refl H)|].
    apply list_elem_of_singleton in H. pose proof (inv_fresh st Hinv s Hs). lia.
  - destruct (Hub.isOpen st socket); [|exact Hin].
    unfold inert, subscribedTo, Hub.received, Hub.beginClose in *.
    cbn [Hub.sockets Hub.wss].
    destruct (decide (s = socket)) as [->|Hne].
    + rewrite lookup_alter_eq.
      destruct (Hub.sockets st !! socket) as [sock|] eqn:E; [|destruct Hs; discriminate].
      cbn. repeat split; eauto.
      intros id (sock' & [= <-] & L). cbn in L. apply (Hn id). eauto.
    + rewrite lookup_alter_ne by congruence. auto.
  - destruct (Hub.sockets st !! socket) as [sock|] eqn:E; [|exact Hin].
    destruct (Nat.eqb _ _); [exact Hin|]. unfold Hub.close. rewrite E.
    unfold inert, subscribedTo, Hub.received in *. cbn [Hub.sockets Hub.wss].
    destruct (decide (s = socket)) as [->|Hne].
    + rewrite lookup_insert_eq. rewrite E in Hr. cbn. repeat split; eauto.
      * intros id (sock' & [= <-] & L). cbn in L. apply (Hn id). eauto.
      * intros cs' H. destruct (Hub.wss st) as [cs|]; [|discriminate].
        injection H as <-. intros H. apply list_elem_of_filter in H as [H _].
        contradiction.
    + rewrite lookup_insert_ne by congruence. repeat split; auto.
      intros cs' H. destruct (Hub.wss st) as [cs|]; [|discriminate].
      injection H as <-. intros H. apply list_elem_of_filter in H as [_ H].
      exact (Hc cs eq_refl H).
  - assert (Hfall : inert match Hub.wss st with
                          | Some clients =>
                             fanOut (Hub.envelope now orderId data) clients st
                          | None => st
                          end s).
    { destruct (Hub.wss st) as [cs|] eqn:W; [|exact Hin].
      destruct (inv_clients st Hinv cs W) as [Hnd _].
      destruct (fanOut_facts (Hub.envelope now orderId data) cs st)
        as (_ & Hw & _ & Hrecv).
      split; [apply is_Some_fanOut, Hs|].
      split; [apply not_subscribedTo_fanOut, Hn|].
      split; [rewrite Hw, W; intros cs' [= <-]; exact (Hc cs eq_refl)|].
      rewrite (Hrecv Hnd s), decide_False; [exact Hr|].
      intros [H _]. exact (Hc cs eq_refl H). }
    destruct (Hub.activeConnections st !! orderId) as [socket|] eqn:E.
    + destruct (Hub.isOpen st socket) eqn:Ho.
      * rewrite (broadcastUpdate_targeted _ _ _ _ _ E Ho).
        assert (Hne : s <> socket).
        { intros ->. exact (Hn orderId (inv_registry st Hinv orderId socket E)). }
        split; [apply is_Some_send, Hs|].
        split; [apply not_subscribedTo_send, Hn|].
        split; [exact Hc|].
        rewrite received_send, decide_False; [exact Hr|]. intros [? _]. contradiction.
      * rewrite broadcastUpdate_fallback by (intros x; rewrite E; congruence).
        exact Hfall.
    + rewrite broadcastUpdate_fallback by (intros x; rewrite E; congruence).
      exact Hfall.
  - unfold inert, subscribedTo, Hub.received, Hub.clearConnections in *.
    cbn [Hub.sockets Hub.wss]. auto.
Qed.

Lemma hubRun_app ops1 ops2 : hubRun (ops1 ++ ops2) = foldl hubStep (hubRun ops1) ops2.
Proof. apply foldl_app. Qed.

Lemma inert_run ops2 : forall ops1 s,
  inert (hubRun ops1) s -> inert (hubRun (ops1 ++ ops2)) s.
Proof.
  induction ops2 as [|op ops2 IH] using rev_ind; intros ops1 s H.
  - rewrite app_nil_r. exact H.
  - rewrite app_assoc, hubRun_snoc. apply hubStep_inert; [apply hubInv_run|].
    apply IH, H.
Qed.

Lemma inert_wsConnect st :
  hubInv st -> inert (snd (Hub.wsConnect st)) (Hub.nextSocket st).
Proof.
  intros Hinv.
  assert (Hnone : Hub.sockets st !! Hub.nextSocket st = None).
  { destruct (Hub.sockets st !! Hub.nextSocket st) eqn:E; [|reflexivity].
    pose proof (inv_fresh st Hinv _ ltac:(eauto)). lia. }
  unfold Hub.wsConnect, Hub.newSocket, inert, subscribedTo, Hub.received.
  cbn [snd Hub.sockets Hub.wss]. rewrite lookup_insert_eq.
  split; [eauto|]. split; [|split; [|reflexivity]].
  - intros id (sock & [= <-] & L). discriminate L.
  - intros cs W Hin. destruct (inv_clients st Hinv cs W) as [_ Hcl].
    destruct (Hcl _ Hin) as (sock & E & _). congruence.
Qed.

End HubInvariant.

(** X15. After any history of the hub, every message a socket that
    subscribed through [/ws/:orderId] has received carries the identifier
    it subscribed for. *)
Theorem subscriber_receives_only_its_order
        (ops : list HubOp) (socket : nat) (orderId : string) :
  subscribedTo (hubRun ops) socket orderId ->
  Forall (fun m => Hub.msg_orderId m = orderId)
         (Hub.received (hubRun ops) socket).
Proof.
  intros (sock & E & L). unfold Hub.received. rewrite E.
  exact (inv_inbox _ (hubInv_run ops) socket sock orderId E L).
Qed.

Lemma subscriber_receives_only_its_order_witness :
  let ops := [OpConnect 1000 "order_1";
              OpBroadcast 2000 "order_1" (event "routing" "Comparing DEX prices...");
              OpBroadcast 3000 "order_2" (event "routing" "Comparing DEX prices...")] in
  Forall (fun m => Hub.msg_orderId m = "order_1") (Hub.received (hubRun ops) 0).
Proof.
  intros ops. apply (subscriber_receives_only_its_order ops 0 "order_1").
  vm_compute. eexists. split; reflexivity.
Defined.

(** X17. Messages sent stay sent, in their order: what a socket has
    received after a history is a prefix of what it has received after any
    continuation; and a socket that is no longer open receives nothing
    more. *)
Theorem inboxes_only_grow (ops1 ops2 : list HubOp) (socket : nat) :
  Hub.received (hubRun ops1) socket
    `prefix_of` Hub.received (hubRun (ops1 ++ ops2)) socket /\
  (closedIn (hubRun ops1) socket ->
   Hub.received (hubRun (ops1 ++ ops2)) socket = Hub.received (hubRun ops1) socket).
Proof.
  destruct (hubRun_received ops2 ops1 socket) as (ms & E & C). split.
  - exists ms. exact E.
  - intros Hc. destruct (C Hc) as [-> _]. rewrite E, app_nil_r. reflexivity.
Qed.

(** X18. After any history of the hub, the clients of the [wss] server
    are distinct sockets and none of them is a subscriber of an order; a
    publish that finds no open registered socket then reaches each open
    client exactly once and no other socket. *)
Theorem fallback_reaches_each_client_once
        (ops : list HubOp) (now : Time) (orderId : string) (data : Event)
        (clients : list nat) :
  let st := hubRun ops in
  (forall socket, Hub.activeConnections st !! orderId = Some socket ->
                  Hub.isOpen st socket = false) ->
  Hub.wss st = Some clients ->
  NoDup clients /\
  (forall c id, c ∈ clients -> ~ subscribedTo st c id) /\
  forall s,
    Hub.received (Hub.broadcastUpdate now orderId data st) s =
    if decide (s ∈ clients /\ Hub.isOpen st s = true)
    then Hub.received st s ++ [Hub.envelope now orderId data]
    else Hub.received st s.
Proof.
  intros st Hnone W.
  destruct (inv_clients st (hubInv_run ops) clients W) as [Hnd Hcl].
  split; [exact Hnd|]. split.
  - intros c id Hin (sock & E & L). destruct (Hcl c Hin) as (sock0 & E0 & L0).
    congruence.
  - intros s. rewrite (broadcastUpdate_fallback _ _ _ _ Hnone), W.
    apply fanOut_facts. exact Hnd.
Qed.

Lemma fallback_reaches_each_client_once_witness :
  let st := hubRun [OpInitialize; OpWssConnect; OpWssConnect] in
  let data := event "routing" "Comparing DEX prices..." in
  NoDup [0%nat; 1%nat] /\
  (forall c id, c ∈ [0%nat; 1%nat] -> ~ subscribedTo st c id) /\
  forall s,
    Hub.received (Hub.broadcastUpdate 2000 "order_1" data st) s =
    if decide (s ∈ [0%nat; 1%nat] /\ Hub.isOpen st s = true)
    then Hub.received st s ++ [Hub.envelope 2000 "order_1" data]
    else Hub.received st s.
Proof.
  intros st data.
  apply (fallback_reaches_each_client_once
           [OpInitialize; OpWssConnect; OpWssConnect] 2000 "order_1" data
           [0%nat; 1%nat]).
  - intros socket H. vm_compute in H. discriminate H.
  - vm_compute. reflexivity.
Defined.



(** X19. A socket of the generic [/ws] endpoint of [setupWebSocket]
    never receives anything, whatever happens before and after it
    connects. *)
Theorem generic_endpoint_receives_nothing (ops1 ops2 : list HubOp) :
  let '(socket, _) := Hub.wsConnect (hubRun ops1) in
  Hub.received (hubRun (ops1 ++ OpWsConnect :: ops2)) socket = [].
Proof.
  unfold Hub.wsConnect, Hub.newSocket.
  assert (H : inert (hubRun (ops1 ++ [OpWsConnect])) (Hub.nextSocket (hubRun ops1))).
  { rewrite hubRun_snoc. apply inert_wsConnect, hubInv_run. }
  apply (inert_run ops2) in H. rewrite <- app_assoc in H. apply H.
Qed.
